(** * music_plots: the frequency table and the chord resolver

    A shallow embedding of the computational core of
    [plot_musical_notes.py]: [calc_octave], [calc_all_notes],
    [combine_prefix_suffix], [calc_chord_freqs] and [chords].

    Conventions of the embedding.
    - A Python [float] is an IEEE 754 binary64 value: Rocq's primitive
      [float].  Decimal literals are rounded to the nearest binary64 value
      by both languages, [*] is [PrimFloat.mul], [==] is [PrimFloat.eqb].
    - A Python [int] is a [Z]; a position counted up from zero by a loop is
      a [nat].
    - A Python [list] is a [list]; [l[i]] is [py_index], which raises
      [IndexError] out of range and counts negative indices from the end.
    - A Python 2 [dict] with string keys is a [gmap string _]; [d[k]]
      raises [KeyError] for an absent key.
    - A call either returns a value or raises: type [outcome].
    - [for] loops that append to an accumulator are left folds. *)

From Stdlib Require Import ZArith List Floats QArith Reals Qreals Lia Lra.
From stdpp Require Import base list strings gmap.

Set Warnings "-inexact-float".

(** ** Outcomes of Python calls *)

Inductive exn : Set := KeyError | IndexError.

Inductive outcome (A : Type) : Type :=
| Returns (a : A)
| Raises (e : exn).
Arguments Returns {A} a.
Arguments Raises {A} e.

Definition obind {A B} (m : outcome A) (k : A -> outcome B) : outcome B :=
  match m with
  | Returns a => k a
  | Raises e => Raises e
  end.

Notation "x <~ m ;; k" := (obind m (fun x => k))
  (at level 100, m at next level, right associativity).

(** A [for] loop whose body may raise: the accumulator is threaded from
    left to right and the first exception ends the loop. *)
Fixpoint for_each {A S} (body : S -> A -> outcome S) (l : list A) (s : S)
  : outcome S :=
  match l with
  | [] => Returns s
  | x :: rest => s' <~ body s x ;; for_each body rest s'
  end.

(** ** Python containers *)

(** [l[i]] for a Python list. *)
Definition py_index {A} (l : list A) (i : Z) : outcome A :=
  let n := Z.of_nat (length l) in
  let j := if (i <? 0)%Z then (n + i)%Z else i in
  if ((j <? 0) || (n <=? j))%Z then Raises IndexError
  else match l !! Z.to_nat j with
       | Some x => Returns x
       | None => Raises IndexError
       end.

(** [d[k]] for a dict. *)
Definition py_getitem {V} (d : gmap string V) (k : string) : outcome V :=
  match d !! k with
  | Some v => Returns v
  | None => Raises KeyError
  end.

(** [dict(pairs)]: later pairs overwrite earlier ones. *)
Definition py_dict {V} (pairs : list (string * V)) : gmap string V :=
  foldl (fun d kv => <[kv.1 := kv.2]> d) ∅ pairs.

(** Arguments a caller may hand to [chords]. *)
Inductive pyobj : Type :=
| PyNone
| PyBool (b : bool)
| PyInt (n : Z)
| PyFloat (f : float)
| PyStr (s : string).

(** [o == 'literal'] *)
Definition py_eq_str (o : pyobj) (lit : string) : bool :=
  match o with
  | PyStr s => String.eqb s lit
  | _ => false
  end.

(** ** The table builder *)

(** [np.power(2, float(i))] for a loop index [i]: the binary64 value of
    2^i.  Doubling is exact in binary64, and gives +inf from 2^1024 on,
    as numpy does. *)
Fixpoint np_power2 (i : nat) : float :=
  match i with
  | O => 1%float
  | S j => (2 * np_power2 j)%float
  end.

(** [num_octaves] is always [float(i)] for a loop index [i]; the index
    itself is passed here. *)
Definition calc_octave (input_pitch : float) (num_octaves : nat) : float :=
  (input_pitch * np_power2 num_octaves)%float.

Definition calc_all_notes (input_scale : list float) : list float :=
  foldl (fun freq_arr i =>
           foldl (fun freq_arr note => freq_arr ++ [calc_octave note i])
                 freq_arr input_scale)
        [] (seq 0 (length input_scale)).

(** The table builder as a call: the body of [calc_all_notes] has no
    [raise], no check of its argument and no operation that fails on a
    list of floats, so the call returns for every such list. *)
Definition build_table (base_frequencies : list float)
  : outcome (list float) :=
  Returns (calc_all_notes base_frequencies).

(** ** Names *)

Definition combine_prefix_suffix (prefixes suffixes : list string)
    (order : string) : list string :=
  let combined := [] in
  let combined :=
    if String.eqb order "prefixes_first" then
      foldl (fun combined suff =>
               foldl (fun combined pre => combined ++ [pre +:+ suff])
                     combined prefixes)
            combined suffixes
    else combined in
  let combined :=
    if String.eqb order "suffixes_first" then
      foldl (fun combined pre =>
               foldl (fun combined suff => combined ++ [pre +:+ suff])
                     combined suffixes)
            combined prefixes
    else combined in
  combined.

(** ** The chord resolver *)

(** The position scan of [calc_chord_freqs]: count the entries passed
    before the first one that is [==] to the root's frequency. *)
Fixpoint scan_pos (all_notes : list float) (root_note_freq : float)
    (pos : nat) : nat :=
  match all_notes with
  | [] => pos
  | i :: rest =>
      if PrimFloat.eqb i root_note_freq then pos
      else scan_pos rest root_note_freq (pos + 1)
  end.

(** The inner loop: the frequencies of one chord. *)
Definition chord_freq (all_notes : list float) (pos : nat)
    (chord : list Z) : outcome (list float) :=
  for_each (fun chord_freq interval =>
              f <~ py_index all_notes (Z.of_nat pos + interval) ;;
              Returns (chord_freq ++ [f]))
           chord [].

Definition calc_chord_freqs (chord_names : list string)
    (chord_intervals : list (list Z)) (root_note : string)
    (notes_dict : gmap string float) (all_notes : list float)
  : outcome (list (list float)) :=
  root_note_freq <~ py_getitem notes_dict root_note ;;
  let pos := scan_pos all_notes root_note_freq 0 in
  for_each (fun chord_frequencies chord =>
              cf <~ chord_freq all_notes pos chord ;;
              Returns (chord_frequencies ++ [cf]))
           chord_intervals [].

(** ** [chords]: the program's own table and chord definitions *)

Module Chords.

Definition note_name_prefixes : list string :=
  ["C"; "Cs"; "D"; "Ds"; "E"; "F"; "Fs"; "G"; "Gs"; "A"; "As"; "B"].
Definition note_name_suffixes : list string :=
  ["-1"; "0"; "1"; "2"; "3"; "4"; "5"; "6"; "7"; "8"; "9"].

Definition note_names : list string :=
  combine_prefix_suffix note_name_prefixes note_name_suffixes "prefixes_first".

(** Fundamental frequencies for the -1 octave. *)
Definition cf_1 : list float :=
  [8.1758; 8.6620; 9.1770; 9.7227; 10.301; 10.914;
   11.563; 12.250; 12.979; 13.750; 14.568; 15.434]%float.

Definition all_notes : list float := calc_all_notes cf_1.

Definition notes_dict : gmap string float := py_dict (zip note_names all_notes).

Definition chord_name_prefixes : list string :=
  ["C"; "Cs"; "D"; "Ds"; "E"; "F"; "Fs"; "G"; "Gs"; "A"; "As"; "B"].
Definition chord_name_suffixes : list string :=
  [" "; "m"; "7"; "m7"; "maj7"; "6"; "m6"; "6/9"; "5"; "9"; "m9"; "maj9";
   "11"; "m11"; "13"; "m13"; "add9"; "add2"; "7-5"; "7+5"; "sus4"; "sus2";
   "dim"; "m7b5"; "aug"].
Definition c_chord_name_prefixes : list string := ["C"].

Definition chord_names : list string :=
  combine_prefix_suffix chord_name_prefixes chord_name_suffixes "suffixes_first".
Definition c_chord_names : list string :=
  combine_prefix_suffix c_chord_name_prefixes chord_name_suffixes
    "suffixes_first".

(** Intervals in number of semitones. *)
Definition root : Z := 0.
Definition minor_second : Z := 1.
Definition major_second : Z := 2.
Definition minor_third : Z := 3.
Definition major_third : Z := 4.
Definition perfect_fourth : Z := 5.
Definition diminished_fifth : Z := 6.
Definition perfect_fifth : Z := 7.
Definition minor_sixth : Z := 8.
Definition major_sixth : Z := 9.
Definition minor_seventh : Z := 10.
Definition major_seventh : Z := 11.
Definition perfect_octave : Z := 12.
Definition minor_ninth : Z := 13.
Definition major_ninth : Z := 14.
Definition minor_tenth : Z := 15.
Definition major_tenth : Z := 16.
Definition eleventh : Z := 17.
Definition thirteenth : Z := 21.

Definition i0 := [root; major_third; perfect_fifth].
Definition i1 := [root; minor_third; perfect_fifth].
Definition i2 := [root; major_third; perfect_fifth; minor_seventh].
Definition i3 := [root; minor_third; perfect_fifth; minor_seventh].
Definition i4 := [root; major_third; perfect_fifth; major_seventh].
Definition i5 := [root; major_third; perfect_fifth; major_sixth].
Definition i6 := [root; minor_third; perfect_fifth; major_sixth].
Definition i7 := [root; major_third; perfect_fifth; major_sixth; major_ninth].
Definition i8 := [root; perfect_fifth].
Definition i9 :=
  [root; major_third; perfect_fifth; minor_seventh; major_ninth].
Definition i10 :=
  [root; minor_third; perfect_fifth; minor_seventh; major_ninth].
Definition i11 :=
  [root; major_third; perfect_fifth; major_seventh; major_ninth].
Definition i12 :=
  [root; major_third; perfect_fifth; minor_seventh; major_ninth; eleventh].
Definition i13 :=
  [root; minor_third; perfect_fifth; minor_seventh; major_ninth; eleventh].
Definition i14 :=
  [root; major_third; perfect_fifth; minor_seventh; major_ninth; eleventh;
   thirteenth].
Definition i15 :=
  [root; minor_third; perfect_fifth; minor_seventh; major_ninth; eleventh;
   thirteenth].
Definition i16 := [root; major_third; perfect_fifth; major_ninth].
Definition i17 := [root; major_second; major_third; perfect_fifth].
Definition i18 := [root; major_third; diminished_fifth; minor_seventh].
Definition i19 := [root; major_third; minor_sixth; minor_seventh].
Definition i20 := [root; perfect_fourth; perfect_fifth].
Definition i21 := [root; major_second; perfect_fifth].
Definition i22 := [root; minor_third; diminished_fifth].
Definition i23 := [root; minor_third; diminished_fifth; minor_seventh].
Definition i24 := [root; major_third; minor_sixth].

Definition chord_intervals : list (list Z) :=
  [i0; i1; i2; i3; i4; i5; i6; i7; i8; i9; i10; i11; i12; i13; i14; i15; i16;
   i17; i18; i19; i20; i21; i22; i23; i24].

Definition middle_c_chromatic : list string :=
  ["C4"; "Cs4"; "D4"; "Ds4"; "E4"; "F4"; "Fs4"; "G4"; "Gs4"; "A5"; "As5";
   "B5"].

Definition root_note_c4 : string := "C4".

End Chords.

(** The two loops of [chords] that resolve every chord definition for
    every root: first one result list per root, then the flattening of
    that list of lists. *)
Definition temp_chord_frequencies (roots chord_names : list string)
    (chord_intervals : list (list Z)) (notes_dict : gmap string float)
    (all_notes : list float) : outcome (list (list (list float))) :=
  for_each (fun temp_chord_frequencies root_note =>
              r <~ calc_chord_freqs chord_names chord_intervals root_note
                     notes_dict all_notes ;;
              Returns (temp_chord_frequencies ++ [r]))
           roots [].

Definition flatten_chords (temp_chord_frequencies : list (list (list float)))
  : list (list float) :=
  foldl (fun chord_frequencies outer =>
           foldl (fun chord_frequencies inner => chord_frequencies ++ [inner])
                 chord_frequencies outer)
        [] temp_chord_frequencies.

Definition chord_frequencies (roots chord_names : list string)
    (chord_intervals : list (list Z)) (notes_dict : gmap string float)
    (all_notes : list float) : outcome (list (list float)) :=
  temp <~ temp_chord_frequencies roots chord_names chord_intervals notes_dict
            all_notes ;;
  Returns (flatten_chords temp).

(** [chords(range)].  A result of [None] is Python's [None], returned when
    the body ends without reaching a [return].  The two [print] calls
    write to standard output only and are left out. *)
Definition chords (range : pyobj)
  : outcome (option (gmap string (list float))) :=
  c_chord_frequencies <~
    calc_chord_freqs Chords.chord_names Chords.chord_intervals
      Chords.root_note_c4 Chords.notes_dict Chords.all_notes ;;
  chord_frequencies <~
    chord_frequencies Chords.middle_c_chromatic Chords.chord_names
      Chords.chord_intervals Chords.notes_dict Chords.all_notes ;;
  let c_chord_dict := py_dict (zip Chords.c_chord_names c_chord_frequencies) in
  let chord_dict := py_dict (zip Chords.chord_names chord_frequencies) in
  if py_eq_str range "c" then Returns (Some c_chord_dict)
  else if py_eq_str range "all" then Returns (Some chord_dict)
  else Returns None.

(** The chromatic table of [main], which names twelve octaves. *)
Module Main.

Definition chromatic_prefixes : list string :=
  ["C"; "Cs"; "D"; "Ds"; "E"; "F"; "Fs"; "G"; "Gs"; "A"; "As"; "B"].
Definition chromatic_suffixes : list string :=
  ["-1"; "0"; "1"; "2"; "3"; "4"; "5"; "6"; "7"; "8"; "9"; "10"].
Definition note_names : list string :=
  combine_prefix_suffix chromatic_prefixes chromatic_suffixes "prefixes_first".
Definition cf_1 : list float :=
  [8.1758; 8.6620; 9.1770; 9.7227; 10.301; 10.914;
   11.563; 12.250; 12.979; 13.750; 14.568; 15.434]%float.
Definition all_notes : list float := calc_all_notes cf_1.
Definition notes_dict : gmap string float := py_dict (zip note_names all_notes).

End Main.

(** ** The series [main] prepares for its plots *)

(** [l[a:b]] for a Python list and bounds [0 <= a], [0 <= b]: the slice
    is clipped to the list, is empty when [b <= a], and never raises. *)
Definition py_slice {A} (l : list A) (a b : nat) : list A :=
  take (b - a) (drop a l).

Module MainSeries.

(** The diatonic table. *)
Definition df_1 : list float :=
  [8.1758; 9.1770; 10.301; 10.914; 12.250; 13.750; 15.434]%float.
Definition all_diatonic_notes : list float := calc_all_notes df_1.
Definition diatonic_prefixes : list string :=
  ["C"; "D"; "E"; "F"; "G"; "A"; "B"].
Definition diatonic_suffixes : list string :=
  ["-1"; "0"; "1"; "2"; "3"; "4"; "5"; "6"; "7"; "8"; "9"; "10"].
Definition diatonic_note_names : list string :=
  combine_prefix_suffix diatonic_prefixes diatonic_suffixes "prefixes_first".
Definition diatonic_middle_c : list float :=
  py_slice all_diatonic_notes 34 44.
Definition diatonic_middle_c_names : list string :=
  py_slice diatonic_note_names 34 44.

(** The chromatic scale around middle C. *)
Definition middle_c : list float := py_slice Main.all_notes 59 73.
Definition middle_c_names : list string := py_slice Main.note_names 59 73.

(** The y ticks of the C chord plots and the labels put on them. *)
Definition c_chord_pitches : list float := py_slice Main.all_notes 60 82.
Definition interval_tick_labels : list string :=
  ["0"; "1"; "2"; "3"; "4"; "5"; "6"; "7"; "8"; "9"; "10"; "11"; "12"; "13";
   "14"; "15"; "16"; "17"; "18"; "19"; "20"; "21"].
Definition chord_pitches : list float := py_slice Main.all_notes 60 83.
Definition chord_note_names : list string := py_slice Main.note_names 60 83.

(** The chord progression of the last two plots. *)
Definition four_chord_prog : list string := ["C "; "G "; "Am"; "F "].

End MainSeries.

(** * Vocabulary of the properties *)

(** A list of frequencies ascends strictly: each entry is [<] its
    successor, with the comparison of binary64.  The entries are numbers:
    a NaN is not [<] anything, and the test is made of a lone entry too. *)
Fixpoint strictly_increasing (l : list float) : bool :=
  match l with
  | [] => true
  | x :: rest =>
      match rest with
      | [] => PrimFloat.eqb x x
      | y :: _ => PrimFloat.ltb x y && strictly_increasing rest
      end
  end.

(** The rational number a finite binary64 value stands for. *)
Definition float_value (x : float) : option Q :=
  match Prim2SF x with
  | S754_zero _ => Some 0%Q
  | S754_finite s m e =>
      Some ((if s then -1 else 1) * (Z.pos m # 1) * 2 ^ e)%Q
  | _ => None
  end.

(** The equal-tempered semitone, the twelfth root of two. *)
Definition semitone : R := Rpower 2 (/ 12).

(** [x] equals [target] within the relative tolerance [tol]. *)
Definition within_rel_tol (tol x target : R) : Prop :=
  (Rabs (x - target) <= tol * Rabs target)%R.

Definition pow12 (q : Q) : Q :=
  let q2 := (q * q)%Q in let q4 := (q2 * q2)%Q in (q4 * q4 * q4)%Q.

(** A rational test for [within_rel_tol (1/10000) q semitone]: compare
    twelfth powers instead of twelfth roots. *)
Definition near_semitone (q : Q) : bool :=
  Qle_bool 0 q
  && Qle_bool (pow12 (q * (10000 # 10001))) 2
  && Qle_bool 2 (pow12 (q * (10000 # 9999))).

(** The step from [cur] to [next] is a semitone within 1e-4, both for the
    exact quotient of the two values and for the binary64 quotient
    [next / cur]. *)
Definition semitone_step (cur next : float) : bool :=
  match float_value cur, float_value next,
        float_value (next / cur)%float with
  | Some qc, Some qn, Some qr =>
      negb (Qeq_bool qc 0) && near_semitone (qn / qc) && near_semitone qr
  | _, _, _ => false
  end.

(** Every step between adjacent pitch classes inside each of the twelve
    octaves of [table] is a semitone within 1e-4. *)
Definition semitone_table (table : list float) : bool :=
  forallb (fun i =>
    forallb (fun p =>
      match table !! (i * 12 + p), table !! (i * 12 + (p + 1)) with
      | Some cur, Some next => semitone_step cur next
      | _, _ => false
      end) (seq 0 11)) (seq 0 12).

(** A set of base frequencies the specification calls malformed: fewer
    than twelve of them, or one that is not positive. *)
Definition malformed (base_frequencies : list float) : Prop :=
  length base_frequencies < 12
  \/ Exists (fun f => PrimFloat.leb f 0 = true) base_frequencies.

(** * Properties *)

(** ** Loops that append are maps *)

Section Loops.
Context {A B C : Type}.

Lemma foldl_snoc_map (f : B -> C) (l : list B) (acc : list C) :
  foldl (fun acc x => acc ++ [f x]) acc l = acc ++ map f l.
Proof.
  revert acc; induction l as [|x l IH]; intros acc; simpl.
  - by rewrite app_nil_r.
  - by rewrite IH, <- app_assoc.
Qed.

Lemma foldl_nested_grid (g : A -> B -> C) (rows : list A) (cols : list B)
    (acc : list C) :
  foldl (fun acc a => foldl (fun acc b => acc ++ [g a b]) acc cols) acc rows
  = acc ++ flat_map (fun a => map (g a) cols) rows.
Proof.
  revert acc; induction rows as [|a rows IH]; intros acc; simpl.
  - by rewrite app_nil_r.
  - by rewrite IH, foldl_snoc_map, <- app_assoc.
Qed.

Lemma length_grid (g : A -> B -> C) (rows : list A) (cols : list B) :
  length (flat_map (fun a => map (g a) cols) rows) = length rows * length cols.
Proof.
  induction rows as [|a rows IH]; simpl; [done|].
  by rewrite length_app, length_map, IH.
Qed.

Lemma lookup_grid (g : A -> B -> C) (rows : list A) (cols : list B)
    (r c : nat) (a : A) (b : B) :
  rows !! r = Some a -> cols !! c = Some b ->
  flat_map (fun a => map (g a) cols) rows !! (r * length cols + c)
  = Some (g a b).
Proof.
  revert r; induction rows as [|a' rows IH]; intros r Hr Hc; [done|].
  destruct r as [|r]; simpl in *.
  - injection Hr as ->.
    rewrite lookup_app_l by (rewrite length_map; by eapply lookup_lt_Some).
    by rewrite list_lookup_fmap, Hc.
  - rewrite lookup_app_r by (rewrite length_map; lia).
    rewrite length_map.
    replace (length cols + r * length cols + c - length cols)
      with (r * length cols + c) by lia.
    by apply IH.
Qed.

End Loops.

Lemma calc_all_notes_grid (input_scale : list float) :
  calc_all_notes input_scale
  = flat_map (fun i => map (fun note => calc_octave note i) input_scale)
             (seq 0 (length input_scale)).
Proof. unfold calc_all_notes. by rewrite foldl_nested_grid. Qed.

Lemma length_calc_all_notes (input_scale : list float) :
  length (calc_all_notes input_scale)
  = length input_scale * length input_scale.
Proof. by rewrite calc_all_notes_grid, length_grid, length_seq. Qed.

Lemma lookup_calc_all_notes (input_scale : list float) (i p : nat) (f : float) :
  i < length input_scale -> input_scale !! p = Some f ->
  calc_all_notes input_scale !! (i * length input_scale + p)
  = Some (calc_octave f i).
Proof.
  intros Hi Hp. rewrite calc_all_notes_grid.
  apply (lookup_grid (fun i note => calc_octave note i)); [|done].
  by rewrite lookup_seq_lt.
Qed.

Lemma combine_prefixes_first (prefixes suffixes : list string) :
  combine_prefix_suffix prefixes suffixes "prefixes_first"
  = flat_map (fun suff => map (fun pre => pre +:+ suff) prefixes) suffixes.
Proof.
  unfold combine_prefix_suffix; simpl.
  by rewrite (foldl_nested_grid (fun suff pre => pre +:+ suff)).
Qed.

Lemma combine_suffixes_first (prefixes suffixes : list string) :
  combine_prefix_suffix prefixes suffixes "suffixes_first"
  = flat_map (fun pre => map (fun suff => pre +:+ suff) suffixes) prefixes.
Proof.
  unfold combine_prefix_suffix; simpl.
  by rewrite (foldl_nested_grid (fun pre suff => pre +:+ suff)).
Qed.

(** ** The table builder *)

Lemma np_power2_exact (i : nat) :
  i < 12 ->
  exists q : Q, float_value (np_power2 i) = Some q /\ (q == 2 ^ Z.of_nat i)%Q.
Proof.
  intros Hi.
  do 12 (destruct i as [|i]; [eexists; split; reflexivity|]). lia.
Qed.

(** C2: given 12 base frequencies, [calc_all_notes] emits, for the octave
    indices 0 to 11 in increasing order and within each octave for the
    base frequencies in their given (pitch-class) order, the entry
    [f * 2^i]: 144 entries, the one of octave [i] and pitch class [p] at
    index [i * 12 + p].  The number of octaves is the length of the input,
    and the factor of octave [i] is exactly the number 2^i. *)
Theorem calc_all_notes_octaves (input_scale : list float) :
  length input_scale = 12 ->
  calc_all_notes input_scale
  = flat_map (fun i => map (fun f => (f * np_power2 i)%float) input_scale)
             (seq 0 12)
  /\ length (calc_all_notes input_scale) = 144
  /\ (forall i p f, i < 12 -> input_scale !! p = Some f ->
       calc_all_notes input_scale !! (i * 12 + p)
       = Some (f * np_power2 i)%float)
  /\ (forall i, i < 12 ->
       exists q : Q,
         float_value (np_power2 i) = Some q /\ (q == 2 ^ Z.of_nat i)%Q).
Proof.
  intros Hlen. split; [|split; [|split]].
  - by rewrite calc_all_notes_grid, Hlen.
  - by rewrite length_calc_all_notes, Hlen.
  - intros i p f Hi Hp. rewrite <- Hlen at 1.
    apply lookup_calc_all_notes; [lia | done].
  - apply np_power2_exact.
Qed.

Lemma calc_all_notes_octaves_witness :
  length Chords.cf_1 = 12
  /\ Chords.all_notes !! (5 * 12 + 0) = Some (8.1758 * np_power2 5)%float.
Proof.
  split; [reflexivity|].
  apply (calc_all_notes_octaves Chords.cf_1); [reflexivity | lia | reflexivity].
Defined.

(** ** Order and equality of binary64 values *)

Lemma SFcompare_lt_trans (a b c : spec_float) :
  SFcompare a b = Some Lt -> SFcompare b c = Some Lt ->
  SFcompare a c = Some Lt.
Proof.
  assert (Hpos : forall m1 m2 m3 : positive,
    Pos.compare_cont Eq m1 m2 = Lt -> Pos.compare_cont Eq m2 m3 = Lt ->
    Pos.compare_cont Eq m1 m3 = Lt).
  { intros m1 m2 m3. change (Pos.compare_cont Eq) with Pos.compare.
    rewrite !Pos.compare_lt_iff. lia. }
  assert (Hneg : forall m1 m2 m3 : positive,
    CompOpp (Pos.compare_cont Eq m1 m2) = Lt ->
    CompOpp (Pos.compare_cont Eq m2 m3) = Lt ->
    CompOpp (Pos.compare_cont Eq m1 m3) = Lt).
  { intros m1 m2 m3. change (Pos.compare_cont Eq) with Pos.compare.
    rewrite <- !Pos.compare_antisym, !Pos.compare_lt_iff. lia. }
  destruct a as [[]|[]| |[] ma ea], b as [[]|[]| |[] mb eb],
    c as [[]|[]| |[] mc ec]; simpl; try congruence;
  destruct (Z.compare_spec ea eb), (Z.compare_spec eb ec),
    (Z.compare_spec ea ec); subst; try congruence; try lia;
  intros Hab Hbc; f_equal; injection Hab as Hab; injection Hbc as Hbc; eauto.
Qed.

Lemma SFcompare_refl_l (a b : spec_float) (c : comparison) :
  SFcompare a b = Some c -> SFcompare a a = Some Eq.
Proof.
  destruct a as [[]|[]| |[] ma ea], b as [[]|[]| |[] mb eb]; simpl;
    try congruence; intros _; rewrite Z.compare_refl;
    change (Pos.compare_cont Eq ma ma) with (Pos.compare ma ma);
    by rewrite Pos.compare_refl.
Qed.

Lemma SFcompare_refl_r (a b : spec_float) (c : comparison) :
  SFcompare a b = Some c -> SFcompare b b = Some Eq.
Proof.
  destruct a as [[]|[]| |[] ma ea], b as [[]|[]| |[] mb eb]; simpl;
    try congruence; intros _; rewrite Z.compare_refl;
    change (Pos.compare_cont Eq mb mb) with (Pos.compare mb mb);
    by rewrite Pos.compare_refl.
Qed.

Lemma float_ltb_trans (x y z : float) :
  PrimFloat.ltb x y = true -> PrimFloat.ltb y z = true ->
  PrimFloat.ltb x z = true.
Proof.
  rewrite !FloatAxioms.ltb_spec. unfold SFltb.
  destruct (SFcompare (Prim2SF x) (Prim2SF y)) as [[]|] eqn:Hxy; try done.
  destruct (SFcompare (Prim2SF y) (Prim2SF z)) as [[]|] eqn:Hyz; try done.
  by rewrite (SFcompare_lt_trans _ _ _ Hxy Hyz).
Qed.

Lemma float_ltb_neq (x y : float) :
  PrimFloat.ltb x y = true -> PrimFloat.eqb x y = false.
Proof.
  rewrite FloatAxioms.ltb_spec, FloatAxioms.eqb_spec. unfold SFltb, SFeqb.
  by destruct (SFcompare _ _) as [[]|].
Qed.

Lemma float_ltb_eqb_refl (x y : float) :
  PrimFloat.ltb x y = true ->
  PrimFloat.eqb x x = true /\ PrimFloat.eqb y y = true.
Proof.
  rewrite FloatAxioms.ltb_spec, !FloatAxioms.eqb_spec. unfold SFltb, SFeqb.
  destruct (SFcompare (Prim2SF x) (Prim2SF y)) as [c|] eqn:Hxy; [|done].
  intros _.
  by rewrite (SFcompare_refl_l _ _ _ Hxy), (SFcompare_refl_r _ _ _ Hxy).
Qed.

(** ** Ascending lists *)

Lemma strictly_increasing_cons (x : float) (l : list float) :
  strictly_increasing (x :: l) = true ->
  strictly_increasing l = true
  /\ forall j y, l !! j = Some y -> PrimFloat.ltb x y = true.
Proof.
  revert x; induction l as [|y l IH]; intros x Hs; [by split|].
  change (PrimFloat.ltb x y && strictly_increasing (y :: l) = true) in Hs.
  apply andb_prop in Hs as [Hxy Hl]. split; [done|].
  intros [|j] z Hz; simpl in Hz.
  - by injection Hz as <-.
  - destruct (IH y Hl) as [_ Hy].
    eapply float_ltb_trans; [exact Hxy | by eapply Hy].
Qed.

Lemma strictly_increasing_lookup (l : list float) (i j : nat) (x y : float) :
  strictly_increasing l = true -> i < j ->
  l !! i = Some x -> l !! j = Some y -> PrimFloat.ltb x y = true.
Proof.
  revert i j; induction l as [|a l IH]; intros i j Hs Hij Hi Hj; [done|].
  destruct (strictly_increasing_cons _ _ Hs) as [Hl Ha].
  destruct j as [|j]; [lia|]. destruct i as [|i]; simpl in *.
  - injection Hi as <-. by eapply Ha.
  - eapply (IH i j); [done | lia | done | done].
Qed.

Lemma strictly_increasing_number (l : list float) (i : nat) (x : float) :
  strictly_increasing l = true -> l !! i = Some x -> PrimFloat.eqb x x = true.
Proof.
  revert i; induction l as [|a l IH]; intros i Hs Hi; [done|].
  destruct i as [|i]; simpl in Hi.
  - injection Hi as <-. destruct l as [|b l]; [done|].
    change (PrimFloat.ltb a b && strictly_increasing (b :: l) = true) in Hs.
    apply andb_prop in Hs as [Hab _].
    by destruct (float_ltb_eqb_refl _ _ Hab).
  - destruct (strictly_increasing_cons _ _ Hs) as [Hl _]. by eapply IH.
Qed.

Lemma all_notes_ascending : strictly_increasing Chords.all_notes = true.
Proof. vm_compute. reflexivity. Qed.

(** C3: the table generated from the program's base frequencies ascends
    strictly in the order of generation: an entry is below every later
    one, in particular below its successor, and the last pitch class of an
    octave is below the first pitch class of the next octave. *)
Theorem all_notes_strictly_increasing :
  (forall i j x y, i < j ->
     Chords.all_notes !! i = Some x -> Chords.all_notes !! j = Some y ->
     PrimFloat.ltb x y = true)
  /\ (forall o x y,
       Chords.all_notes !! (o * 12 + 11) = Some x ->
       Chords.all_notes !! ((o + 1) * 12 + 0) = Some y ->
       PrimFloat.ltb x y = true).
Proof.
  pose proof all_notes_ascending as Hs. split.
  - intros i j x y. by apply strictly_increasing_lookup.
  - intros o x y. apply strictly_increasing_lookup; [done | lia].
Qed.

Lemma all_notes_strictly_increasing_witness :
  PrimFloat.ltb 15.434 16.3516 = true.
Proof.
  apply (proj2 all_notes_strictly_increasing 0); reflexivity.
Defined.

(** C4: in the generated table, the entry one octave up is exactly twice
    the entry: for octaves [i] and [i + 1] of the table and every pitch
    class [p], the entry at [(i + 1) * 12 + p] is [2 *] the entry at
    [i * 12 + p], with no rounding. *)
Theorem octave_doubling (i p : nat) (x : float) :
  i + 1 < 12 -> p < 12 ->
  Chords.all_notes !! (i * 12 + p) = Some x ->
  Chords.all_notes !! ((i + 1) * 12 + p) = Some (2 * x)%float.
Proof.
  intros Hi Hp.
  do 11 (destruct i as [|i];
    [ do 12 (destruct p as [|p];
        [ vm_compute; intros [= <-]; reflexivity | ]); lia | ]).
  lia.
Qed.

Lemma octave_doubling_witness :
  Chords.all_notes !! (5 * 12 + 9) = Some 440%float
  /\ Chords.all_notes !! (6 * 12 + 9) = Some 880%float.
Proof.
  split; [reflexivity|].
  apply (octave_doubling 5 9 440%float); [lia | lia | reflexivity].
Defined.

(** ** Semitone ratios *)

Local Open Scope R_scope.

Lemma pow_lt_mono (x y : R) (n : nat) :
  0 <= x -> x < y -> x ^ S n < y ^ S n.
Proof.
  intros Hx Hxy. induction n as [|n IH].
  - simpl. lra.
  - change (x * x ^ S n < y * y ^ S n).
    apply Rmult_le_0_lt_compat; [done | by apply pow_le | done | done].
Qed.

Lemma semitone_pos : 0 < semitone.
Proof. unfold semitone, Rpower. apply exp_pos. Qed.

Lemma semitone_pow12 : semitone ^ 12 = 2.
Proof.
  rewrite <- (Rpower_pow 12 semitone semitone_pos). unfold semitone.
  rewrite Rpower_mult.
  replace (/ 12 * INR 12) with 1 by (simpl; field).
  apply Rpower_1; lra.
Qed.

Lemma Q2R_pow12 (q : Q) : Q2R (pow12 q) = Q2R q ^ 12.
Proof. unfold pow12. rewrite !Q2R_mult. ring. Qed.

Lemma near_semitone_sound (q : Q) :
  near_semitone q = true -> within_rel_tol (1 / 10000) (Q2R q) semitone.
Proof.
  unfold near_semitone. intros H.
  apply andb_prop in H as [H Hhi]. apply andb_prop in H as [H0 Hlo].
  apply Qle_bool_iff, Qle_Rle in H0, Hlo, Hhi.
  rewrite Q2R_pow12, Q2R_mult in Hlo, Hhi.
  replace (Q2R 0) with 0 in H0 by (unfold Q2R; simpl; lra).
  replace (Q2R 2) with 2 in Hlo, Hhi by (unfold Q2R; simpl; lra).
  replace (Q2R (10000 # 10001)) with (10000 / 10001) in Hlo
    by (unfold Q2R; simpl; lra).
  replace (Q2R (10000 # 9999)) with (10000 / 9999) in Hhi
    by (unfold Q2R; simpl; lra).
  pose proof semitone_pos as Hc. pose proof semitone_pow12 as Hc12.
  assert (Hle : Q2R q * (10000 / 10001) <= semitone).
  { apply Rnot_lt_le. intros Hlt.
    apply (pow_lt_mono _ _ 11) in Hlt; lra. }
  assert (Hge : semitone <= Q2R q * (10000 / 9999)).
  { apply Rnot_lt_le. intros Hlt.
    apply (pow_lt_mono _ _ 11) in Hlt; lra. }
  unfold within_rel_tol. rewrite (Rabs_pos_eq semitone) by lra.
  apply Rabs_le. lra.
Qed.

Lemma semitone_step_sound (cur next : float) :
  semitone_step cur next = true ->
  exists qc qn qr : Q,
    float_value cur = Some qc /\ float_value next = Some qn
    /\ float_value (next / cur)%float = Some qr
    /\ within_rel_tol (1 / 10000) (Q2R qn / Q2R qc) semitone
    /\ within_rel_tol (1 / 10000) (Q2R qr) semitone.
Proof.
  unfold semitone_step.
  destruct (float_value cur) as [qc|]; [|done].
  destruct (float_value next) as [qn|]; [|done].
  destruct (float_value (next / cur)%float) as [qr|]; [|done].
  intros H. apply andb_prop in H as [H Hr]. apply andb_prop in H as [Hc Hq].
  exists qc, qn, qr. repeat split; [|by apply near_semitone_sound].
  rewrite <- Q2R_div; [by apply near_semitone_sound|].
  intros Hz. apply Qeq_bool_iff in Hz. by rewrite Hz in Hc.
Qed.

Local Close Scope R_scope.

Lemma semitone_table_sound (table : list float) (i p : nat)
    (cur next : float) :
  semitone_table table = true -> i < 12 -> p + 1 < 12 ->
  table !! (i * 12 + p) = Some cur ->
  table !! (i * 12 + (p + 1)) = Some next ->
  semitone_step cur next = true.
Proof.
  unfold semitone_table. intros Htable Hi Hp Hcur Hnext.
  rewrite forallb_forall in Htable.
  assert (Hini : In i (seq 0 12)) by (apply in_seq; lia).
  specialize (Htable i Hini). rewrite forallb_forall in Htable.
  assert (Hinp : In p (seq 0 11)) by (apply in_seq; lia).
  specialize (Htable p Hinp).
  by rewrite Hcur, Hnext in Htable.
Qed.

Lemma semitone_table_all_notes : semitone_table Chords.all_notes = true.
Proof. vm_compute. reflexivity. Qed.

(** C5: within every octave of the table built from the program's base
    frequencies, the ratio of each pitch class to the one before it in
    chromatic order equals the twelfth root of two within a relative
    tolerance of 1e-4.  This holds of the exact quotient of the two stored
    values and of the quotient computed in binary64. *)
Theorem adjacent_semitone_ratio (i p : nat) (cur next : float) :
  i < 12 -> p + 1 < 12 ->
  Chords.all_notes !! (i * 12 + p) = Some cur ->
  Chords.all_notes !! (i * 12 + (p + 1)) = Some next ->
  exists qc qn qr : Q,
    float_value cur = Some qc /\ float_value next = Some qn
    /\ float_value (next / cur)%float = Some qr
    /\ within_rel_tol (1 / 10000) (Q2R qn / Q2R qc) semitone
    /\ within_rel_tol (1 / 10000) (Q2R qr) semitone.
Proof.
  intros Hi Hp Hcur Hnext. apply semitone_step_sound.
  exact (semitone_table_sound Chords.all_notes i p cur next
           semitone_table_all_notes Hi Hp Hcur Hnext).
Qed.

Lemma adjacent_semitone_ratio_witness :
  exists qc qn qr : Q,
    float_value 440 = Some qc /\ float_value 466.176 = Some qn
    /\ float_value (466.176 / 440)%float = Some qr
    /\ within_rel_tol (1 / 10000) (Q2R qn / Q2R qc) semitone
    /\ within_rel_tol (1 / 10000) (Q2R qr) semitone.
Proof.
  apply (adjacent_semitone_ratio 5 9); [lia | lia | reflexivity | reflexivity].
Defined.

(** ** Dictionaries built from pairs *)

Lemma py_dict_list_to_map {V} (pairs : list (string * V)) :
  py_dict pairs = list_to_map (reverse pairs).
Proof.
  unfold py_dict, list_to_map. generalize (∅ : gmap string V).
  induction pairs as [|kv pairs IH]; intros d; simpl; [done|].
  by rewrite IH, reverse_cons, foldr_snoc.
Qed.

Lemma NoDup_zip_fst {V} (names : list string) (vals : list V) :
  NoDup names -> NoDup (zip names vals).*1.
Proof.
  intros Hnd; revert vals; induction Hnd as [|k names Hk Hnd IH];
    intros [|v vals]; simpl; try apply NoDup_nil_2.
  apply NoDup_cons_2; [|by apply IH].
  intros Hin. apply list_elem_of_fmap in Hin as [[k' v'] [-> Hin]].
  by apply elem_of_zip_l in Hin.
Qed.

Lemma py_dict_zip_lookup {V} (names : list string) (vals : list V)
    (r : nat) (k : string) (v : V) :
  NoDup names -> names !! r = Some k -> vals !! r = Some v ->
  py_dict (zip names vals) !! k = Some v.
Proof.
  intros Hnd Hk Hv. rewrite py_dict_list_to_map.
  apply elem_of_list_to_map_1.
  - rewrite fmap_reverse, reverse_Permutation. by apply NoDup_zip_fst.
  - apply elem_of_reverse, (list_elem_of_lookup_2 _ r).
    apply lookup_zip_with_Some. by exists k, v.
Qed.

Lemma py_dict_zip_lookup_inv {V} (names : list string) (vals : list V)
    (k : string) (v : V) :
  py_dict (zip names vals) !! k = Some v ->
  exists r, names !! r = Some k /\ vals !! r = Some v.
Proof.
  rewrite py_dict_list_to_map. intros Hin%elem_of_list_to_map_2.
  rewrite elem_of_reverse in Hin.
  apply list_elem_of_lookup_1 in Hin as [r Hr].
  apply lookup_zip_with_Some in Hr as (k' & v' & [= -> ->] & ? & ?).
  by exists r.
Qed.

(** ** Indexing and loops *)

Lemma py_index_nonneg {A} (l : list A) (i : Z) :
  (0 <= i)%Z ->
  py_index l i
  = match l !! Z.to_nat i with
    | Some x => Returns x
    | None => Raises IndexError
    end.
Proof.
  intros Hi. unfold py_index.
  replace (i <? 0)%Z with false by lia.
  destruct (Z.leb_spec (Z.of_nat (length l)) i) as [Hle|Hlt].
  - replace (i <? 0)%Z with false by lia. simpl.
    by rewrite lookup_ge_None_2 by lia.
  - by replace (i <? 0)%Z with false by lia.
Qed.

Lemma py_index_raises {A} (l : list A) (i : Z) (e : exn) :
  py_index l i = Raises e -> e = IndexError.
Proof.
  unfold py_index. destruct (_ || _); [congruence|].
  destruct (l !! _); congruence.
Qed.

Section Collect.
Context {A B : Type} (g : A -> outcome B).

Local Abbreviation body :=
  (fun (acc : list B) (x : A) => y <~ g x ;; Returns (acc ++ [y])).

Lemma for_each_returns (l : list A) (ys acc : list B) :
  Forall2 (fun x y => g x = Returns y) l ys ->
  for_each body l acc = Returns (acc ++ ys).
Proof.
  intros H; revert acc; induction H as [|x y l ys Hx _ IH]; intros acc; simpl.
  - by rewrite app_nil_r.
  - rewrite Hx. simpl. by rewrite IH, <- app_assoc.
Qed.

Lemma for_each_returns_inv (l : list A) (acc r : list B) :
  for_each body l acc = Returns r ->
  exists ys, r = acc ++ ys /\ Forall2 (fun x y => g x = Returns y) l ys.
Proof.
  revert acc; induction l as [|x l IH]; intros acc; simpl.
  - intros [= <-]. exists []. by rewrite app_nil_r.
  - destruct (g x) as [y|e] eqn:Hx; simpl; [|done].
    intros (ys & -> & Hys)%IH. exists (y :: ys).
    split; [by rewrite <- app_assoc | by constructor].
Qed.

Lemma for_each_raises_inv (l : list A) (acc : list B) (e : exn) :
  for_each body l acc = Raises e -> exists x, x ∈ l /\ g x = Raises e.
Proof.
  revert acc; induction l as [|x l IH]; intros acc; simpl; [done|].
  destruct (g x) as [y|e'] eqn:Hx; simpl.
  - intros (x' & Hin & Hx')%IH. exists x'. split; [by right | done].
  - intros [= ->]. exists x. split; [by left | done].
Qed.

Lemma for_each_total (l : list A) (acc : list B) :
  (forall x, x ∈ l -> exists y, g x = Returns y) ->
  exists ys, for_each body l acc = Returns (acc ++ ys)
             /\ Forall2 (fun x y => g x = Returns y) l ys.
Proof.
  intros Hall.
  destruct (for_each body l acc) as [r|e] eqn:Hr.
  - apply for_each_returns_inv in Hr as (ys & -> & Hys). by exists ys.
  - apply for_each_raises_inv in Hr as (x & Hin & Hx).
    destruct (Hall x Hin) as [y Hy]. congruence.
Qed.

Lemma for_each_raises (l : list A) (acc : list B) (x : A) (e : exn) :
  x ∈ l -> g x = Raises e -> exists e', for_each body l acc = Raises e'.
Proof.
  intros Hin Hx. destruct (for_each body l acc) as [r|e'] eqn:Hr; [|by exists e'].
  apply for_each_returns_inv in Hr as (ys & _ & Hys).
  apply list_elem_of_lookup_1 in Hin as [i Hi].
  destruct (Forall2_lookup_l _ _ _ _ _ Hys Hi) as (y & _ & Hy). congruence.
Qed.

End Collect.

(** ** The position scan *)

Lemma scan_pos_ascending (all_notes : list float) (r n : nat) (f : float) :
  strictly_increasing all_notes = true -> all_notes !! r = Some f ->
  scan_pos all_notes f n = n + r.
Proof.
  revert r n; induction all_notes as [|a l IH]; intros r n Hs Hr; [done|].
  destruct r as [|r]; simpl in *.
  - injection Hr as ->.
    rewrite (strictly_increasing_number (f :: l) 0 f Hs eq_refl). lia.
  - destruct (strictly_increasing_cons _ _ Hs) as [Hl Ha].
    rewrite (float_ltb_neq _ _ (Ha r f Hr)), (IH r (n + 1) Hl Hr). lia.
Qed.

Lemma root_position_is_rank (note_names : list string)
    (all_notes : list float) (root_note : string) (r : nat) (f : float) :
  NoDup note_names -> strictly_increasing all_notes = true ->
  note_names !! r = Some root_note -> all_notes !! r = Some f ->
  py_dict (zip note_names all_notes) !! root_note = Some f
  /\ scan_pos all_notes f 0 = r.
Proof.
  intros Hnd Hs Hname Hf. split.
  - by eapply py_dict_zip_lookup.
  - by rewrite (scan_pos_ascending _ r 0 f).
Qed.

(** ** One chord *)

Lemma chord_freq_step (all_notes : list float) (pos : nat) (k : Z) :
  (0 <= k)%Z ->
  py_index all_notes (Z.of_nat pos + k)
  = match all_notes !! (pos + Z.to_nat k) with
    | Some x => Returns x
    | None => Raises IndexError
    end.
Proof.
  intros Hk. rewrite py_index_nonneg by lia.
  by replace (Z.to_nat (Z.of_nat pos + k)) with (pos + Z.to_nat k) by lia.
Qed.

Lemma chord_freq_returns_inv (all_notes : list float) (pos : nat)
    (chord : list Z) (fs : list float) :
  Forall (fun k => (0 <= k)%Z) chord ->
  chord_freq all_notes pos chord = Returns fs ->
  Forall2 (fun k x => all_notes !! (pos + Z.to_nat k) = Some x) chord fs.
Proof.
  intros Hnn Hr. unfold chord_freq in Hr.
  apply for_each_returns_inv in Hr as (ys & -> & Hys). simpl.
  revert Hnn. induction Hys as [|k y chord ys Hk _ IH]; intros Hnn;
    [constructor|].
  apply Forall_cons in Hnn as [Hk0 Hnn]. constructor; [|by apply IH].
  rewrite chord_freq_step in Hk by done.
  destruct (all_notes !! _); congruence.
Qed.

Lemma chord_freq_raises_inv (all_notes : list float) (pos : nat)
    (chord : list Z) (e : exn) :
  Forall (fun k => (0 <= k)%Z) chord ->
  chord_freq all_notes pos chord = Raises e ->
  e = IndexError
  /\ exists k, k ∈ chord
       /\ (Z.of_nat (length all_notes) <= Z.of_nat pos + k)%Z.
Proof.
  intros Hnn Hr. unfold chord_freq in Hr.
  apply for_each_raises_inv in Hr as (k & Hin & Hk).
  split; [by eapply py_index_raises|]. exists k. split; [done|].
  rewrite Forall_forall in Hnn. specialize (Hnn k Hin).
  rewrite chord_freq_step in Hk by done.
  destruct (all_notes !! _) eqn:Hl; [done|].
  apply lookup_ge_None_1 in Hl. lia.
Qed.

Lemma chord_freq_raises (all_notes : list float) (pos : nat)
    (chord : list Z) (k : Z) :
  Forall (fun k => (0 <= k)%Z) chord -> k ∈ chord ->
  (Z.of_nat (length all_notes) <= Z.of_nat pos + k)%Z ->
  chord_freq all_notes pos chord = Raises IndexError.
Proof.
  intros Hnn Hin Hk.
  assert (Hraise : py_index all_notes (Z.of_nat pos + k) = Raises IndexError).
  { rewrite Forall_forall in Hnn. rewrite chord_freq_step by auto.
    by rewrite lookup_ge_None_2 by lia. }
  destruct (for_each_raises
              (fun interval => py_index all_notes (Z.of_nat pos + interval))
              chord [] k IndexError Hin Hraise) as [e He].
  unfold chord_freq. rewrite He.
  by destruct (chord_freq_raises_inv all_notes pos chord e Hnn He) as [-> _].
Qed.

Lemma chord_freq_returns (all_notes : list float) (pos : nat)
    (chord : list Z) :
  Forall (fun k => (0 <= k)%Z) chord ->
  (forall k, k ∈ chord ->
     (Z.of_nat pos + k < Z.of_nat (length all_notes))%Z) ->
  exists fs, chord_freq all_notes pos chord = Returns fs.
Proof.
  intros Hnn Hin.
  destruct (chord_freq all_notes pos chord) as [fs|e] eqn:Hr; [by exists fs|].
  destruct (chord_freq_raises_inv _ _ _ _ Hnn Hr) as (_ & k & Hk & Hge).
  specialize (Hin k Hk). lia.
Qed.

(** ** All chords of one root *)

Lemma calc_chord_freqs_outcome (chord_names : list string)
    (chord_intervals : list (list Z)) (root_note : string)
    (notes_dict : gmap string float) (all_notes : list float) :
  Forall (Forall (fun k => (0 <= k)%Z)) chord_intervals ->
  let result :=
    calc_chord_freqs chord_names chord_intervals root_note notes_dict
      all_notes in
  let beyond (f : float) :=
    exists chord k, chord ∈ chord_intervals /\ k ∈ chord
      /\ (Z.of_nat (length all_notes)
          <= Z.of_nat (scan_pos all_notes f 0) + k)%Z in
  (result = Raises KeyError <-> notes_dict !! root_note = None)
  /\ (result = Raises IndexError
      <-> exists f, notes_dict !! root_note = Some f /\ beyond f)
  /\ (forall f, notes_dict !! root_note = Some f -> ~ beyond f ->
      exists freqs, result = Returns freqs
        /\ Forall2 (Forall2 (fun k x =>
             all_notes !! (scan_pos all_notes f 0 + Z.to_nat k) = Some x))
           chord_intervals freqs).
Proof.
  intros Hnn result beyond. subst result.
  unfold calc_chord_freqs, py_getitem.
  destruct (notes_dict !! root_note) as [f|] eqn:Hroot; simpl.
  - set (pos := scan_pos all_notes f 0).
    assert (Hraise : forall e,
      for_each (fun chord_frequencies chord =>
                  cf <~ chord_freq all_notes pos chord ;;
                  Returns (chord_frequencies ++ [cf])) chord_intervals []
      = Raises e -> e = IndexError /\ beyond f).
    { intros e (chord & Hin & Hc)%for_each_raises_inv.
      rewrite Forall_forall in Hnn.
      destruct (chord_freq_raises_inv _ _ _ _ (Hnn chord Hin) Hc)
        as (-> & k & Hk & Hge).
      split; [done|]. by exists chord, k. }
    split; [|split].
    + split; [|done]. by intros [[=] _]%Hraise.
    + split.
      * intros [_ Hb]%Hraise. by exists f.
      * intros (f' & [= <-] & chord & k & Hin & Hk & Hge).
        assert (Hc : chord_freq all_notes pos chord = Raises IndexError).
        { rewrite Forall_forall in Hnn.
          by apply (chord_freq_raises _ _ _ k (Hnn chord Hin)). }
        destruct (for_each_raises (chord_freq all_notes pos) chord_intervals
                    [] chord IndexError Hin Hc) as [e He].
        rewrite He. by destruct (Hraise e He) as [-> _].
    + intros f' [= <-] Hnb.
      destruct (for_each_total (chord_freq all_notes pos) chord_intervals [])
        as (freqs & -> & Hfreqs).
      { intros chord Hin. rewrite Forall_forall in Hnn.
        apply chord_freq_returns; [by apply Hnn|].
        intros k Hk. apply Z.lt_nge. intros Hge. apply Hnb.
        by exists chord, k. }
      exists freqs. split; [done|].
      rewrite Forall_forall in Hnn.
      clear -Hfreqs Hnn. induction Hfreqs as [|chord fs l l' Hc _ IH];
        [constructor|].
      constructor.
      * apply chord_freq_returns_inv; [|done]. apply Hnn. by left.
      * apply IH. intros c Hin. apply Hnn. by right.
  - split; [|split].
    + done.
    + split; [done|]. by intros (f & [=] & _).
    + by intros f [=].
Qed.

(** C6: for non-negative intervals, [calc_chord_freqs] raises [KeyError]
    exactly when the root name is not a key of the name-to-frequency
    mapping; it raises [IndexError] exactly when the root is a key and
    some interval [k] of some chord puts [pos + k] past the last index of
    the frequency list, [pos] being the position the function located for
    the root; in every other case it returns, one frequency per interval,
    each the entry at [pos + k]: nothing is dropped and no index wraps.
    On an ascending table with distinct names, [pos] is the root's rank. *)
Theorem calc_chord_freqs_errors (chord_names : list string)
    (chord_intervals : list (list Z)) (root_note : string)
    (notes_dict : gmap string float) (all_notes : list float) :
  Forall (Forall (fun k => (0 <= k)%Z)) chord_intervals ->
  let result :=
    calc_chord_freqs chord_names chord_intervals root_note notes_dict
      all_notes in
  let beyond (f : float) :=
    exists chord k, chord ∈ chord_intervals /\ k ∈ chord
      /\ (Z.of_nat (length all_notes)
          <= Z.of_nat (scan_pos all_notes f 0) + k)%Z in
  (result = Raises KeyError <-> notes_dict !! root_note = None)
  /\ (result = Raises IndexError
      <-> exists f, notes_dict !! root_note = Some f /\ beyond f)
  /\ (forall f, notes_dict !! root_note = Some f -> ~ beyond f ->
      exists freqs, result = Returns freqs
        /\ Forall2 (Forall2 (fun k x =>
             all_notes !! (scan_pos all_notes f 0 + Z.to_nat k) = Some x))
           chord_intervals freqs)
  /\ (forall note_names r f,
      NoDup note_names -> notes_dict = py_dict (zip note_names all_notes) ->
      strictly_increasing all_notes = true ->
      note_names !! r = Some root_note -> all_notes !! r = Some f ->
      notes_dict !! root_note = Some f /\ scan_pos all_notes f 0 = r).
Proof.
  intros Hnn result beyond.
  destruct (calc_chord_freqs_outcome chord_names chord_intervals root_note
              notes_dict all_notes Hnn) as (Hkey & Hidx & Hok).
  split; [exact Hkey|]. split; [exact Hidx|]. split; [exact Hok|].
  intros note_names r f Hnd -> Hs Hname Hf.
  by apply root_position_is_rank.
Qed.

Lemma calc_chord_freqs_errors_witness :
  calc_chord_freqs [] [[0; 4; 7]%Z] "Z9" Chords.notes_dict Chords.all_notes
  = Raises KeyError
  /\ calc_chord_freqs [] [[0; 13]%Z] "B9" Chords.notes_dict Chords.all_notes
    = Raises IndexError.
Proof.
  split.
  - apply (calc_chord_freqs_errors [] [[0; 4; 7]%Z] "Z9" Chords.notes_dict
             Chords.all_notes).
    + repeat constructor; lia.
    + vm_compute. reflexivity.
  - apply (calc_chord_freqs_errors [] [[0; 13]%Z] "B9" Chords.notes_dict
             Chords.all_notes).
    + repeat constructor; lia.
    + exists 15804.416%float. split; [vm_compute; reflexivity|].
      exists [0; 13]%Z, 13%Z.
      split; [by left|]. split; [by right; left|].
      vm_compute. discriminate.
Defined.


(** The hypothesis on the intervals matters: Python counts a negative
    index from the end of the list, and so does [py_index]. *)
Example negative_interval_wraps :
  calc_chord_freqs [] [[-1]%Z] "C-1" Chords.notes_dict Chords.all_notes
  = Returns [[31608.832%float]].
Proof. vm_compute. reflexivity. Qed.

(** C1: on a table with distinct names whose frequencies ascend strictly,
    for a root name at rank [r] and non-negative intervals whose positions
    [r + k] stay inside the table, [calc_chord_freqs] finds the root's
    frequency under its name, locates position [r] for it, and returns for
    every chord, for each interval [k] in the given order, the entry at
    position [r + k]; for the single chord [[0]] it returns exactly the
    root's own frequency. *)
Theorem calc_chord_freqs_resolves (note_names chord_names : list string)
    (all_notes : list float) (chord_intervals : list (list Z))
    (root_note : string) (r : nat) (f : float) :
  NoDup note_names ->
  strictly_increasing all_notes = true ->
  note_names !! r = Some root_note -> all_notes !! r = Some f ->
  Forall (Forall (fun k =>
    (0 <= k)%Z /\ (Z.of_nat r + k < Z.of_nat (length all_notes))%Z))
    chord_intervals ->
  let notes_dict := py_dict (zip note_names all_notes) in
  notes_dict !! root_note = Some f
  /\ scan_pos all_notes f 0 = r
  /\ (exists freqs,
       calc_chord_freqs chord_names chord_intervals root_note notes_dict
         all_notes = Returns freqs
       /\ Forall2 (Forall2 (fun k x =>
            all_notes !! (r + Z.to_nat k) = Some x)) chord_intervals freqs)
  /\ calc_chord_freqs chord_names [[0%Z]] root_note notes_dict all_notes
     = Returns [[f]].
Proof.
  intros Hnd Hs Hname Hf Hin notes_dict.
  destruct (root_position_is_rank note_names all_notes root_note r f)
    as [Hd Hpos]; try done.
  split; [done|]. split; [done|]. split.
  - destruct (calc_chord_freqs_outcome chord_names chord_intervals root_note
                notes_dict all_notes) as (_ & _ & Hok).
    { eapply Forall_impl; [exact Hin|]. intros chord Hc.
      eapply Forall_impl; [exact Hc|]. by intros k [Hk _]. }
    destruct (Hok f Hd) as (freqs & Hres & Hfreqs).
    { intros (chord & k & Hchord & Hk & Hge). rewrite Hpos in Hge.
      rewrite Forall_forall in Hin. specialize (Hin chord Hchord).
      rewrite Forall_forall in Hin. destruct (Hin k Hk). lia. }
    exists freqs. split; [done|]. by rewrite Hpos in Hfreqs.
  - destruct (calc_chord_freqs_outcome chord_names [[0%Z]] root_note
                notes_dict all_notes) as (_ & _ & Hok).
    { repeat constructor; lia. }
    destruct (Hok f Hd) as (freqs & -> & Hfreqs).
    { intros (chord & k & Hchord & Hk & Hge). rewrite Hpos in Hge.
      apply list_elem_of_singleton in Hchord as ->.
      apply list_elem_of_singleton in Hk as ->.
      apply lookup_lt_Some in Hf. lia. }
    rewrite Hpos in Hfreqs.
    apply Forall2_cons_inv_l in Hfreqs as (fs & rest & H0 & Hnil & ->).
    apply Forall2_nil_inv_l in Hnil as ->.
    apply Forall2_cons_inv_l in H0 as (x & rest & Hx & Hnil & ->).
    apply Forall2_nil_inv_l in Hnil as ->.
    replace (r + Z.to_nat 0) with r in Hx by lia. congruence.
Qed.

Lemma calc_chord_freqs_resolves_witness :
  calc_chord_freqs Chords.chord_names [[0%Z]] "C4" Chords.notes_dict
    Chords.all_notes
  = Returns [[261.6256%float]].
Proof.
  apply (calc_chord_freqs_resolves Chords.note_names Chords.chord_names
           Chords.all_notes Chords.chord_intervals "C4" 60 261.6256%float).
  - apply (bool_decide_unpack _). vm_compute. exact I.
  - vm_compute. reflexivity.
  - vm_compute. reflexivity.
  - vm_compute. reflexivity.
  - apply (bool_decide_unpack _). vm_compute. exact I.
Defined.

(** ** No validation in the table builder *)

(** C7 fails on the code: the builder returns a table for the empty list
    of base frequencies, for the seven diatonic frequencies that [main]
    hands to it, and for twelve frequencies of which one is negative. *)
Lemma build_table_accepts_malformed :
  (malformed [] /\ build_table [] = Returns [])
  /\ (malformed [8.1758; 9.1770; 10.301; 10.914; 12.250; 13.750; 15.434]%float
      /\ exists table,
          build_table
            [8.1758; 9.1770; 10.301; 10.914; 12.250; 13.750; 15.434]%float
          = Returns table /\ length table = 49)
  /\ (malformed (-8.1758 :: tail Chords.cf_1)%float
      /\ exists table,
          build_table (-8.1758 :: tail Chords.cf_1)%float = Returns table
          /\ table !! 12 = Some (-16.3516)%float)
  /\ ~ (forall base_frequencies, malformed base_frequencies ->
        exists e, build_table base_frequencies = Raises e).
Proof.
  split; [|split; [|split]].
  - split; [left; simpl; lia | reflexivity].
  - split; [left; simpl; lia|]. eexists. split; reflexivity.
  - split; [right; left; reflexivity|]. eexists. split; reflexivity.
  - intros H. destruct (H []) as [e He]; [left; simpl; lia | discriminate].
Qed.

(** C7, amended: the builder validates nothing.  For every list of base
    frequencies, of any length [n] and with any values, it returns a
    table and raises nothing; the table has [n * n] entries, the one of
    octave [i] and position [p] being the [p]-th base frequency times
    [2^i]. *)
Theorem build_table_total (base_frequencies : list float) :
  build_table base_frequencies = Returns (calc_all_notes base_frequencies)
  /\ (forall e, build_table base_frequencies <> Raises e)
  /\ length (calc_all_notes base_frequencies)
     = length base_frequencies * length base_frequencies
  /\ calc_all_notes base_frequencies
     = flat_map (fun i => map (fun f => (f * np_power2 i)%float)
                              base_frequencies)
                (seq 0 (length base_frequencies)).
Proof.
  split; [done|]. split; [done|]. split.
  - apply length_calc_all_notes.
  - apply calc_all_notes_grid.
Qed.

(** ** Every chord of every root *)

Lemma flatten_chords_concat (temp : list (list (list float))) :
  flatten_chords temp = concat temp.
Proof.
  unfold flatten_chords.
  enough (H : forall acc : list (list float),
    foldl (fun chord_frequencies outer =>
             foldl (fun chord_frequencies inner =>
                      chord_frequencies ++ [inner]) chord_frequencies outer)
          acc temp = acc ++ concat temp) by apply (H []).
  induction temp as [|outer temp IH]; intros acc; simpl.
  - by rewrite app_nil_r.
  - rewrite IH, (foldl_snoc_map (fun inner => inner)), map_id.
    by rewrite <- app_assoc.
Qed.

Lemma lookup_concat_uniform {A} (rows : list (list A)) (n r d : nat)
    (row : list A) :
  Forall (fun row => length row = n) rows ->
  rows !! r = Some row -> d < n ->
  concat rows !! (r * n + d) = row !! d.
Proof.
  revert r; induction rows as [|row' rows IH]; intros r Hlen Hr Hd; [done|].
  apply Forall_cons in Hlen as [Hrow Hlen].
  destruct r as [|r]; simpl in *.
  - injection Hr as ->. by rewrite lookup_app_l by lia.
  - rewrite lookup_app_r by lia.
    replace (n + r * n + d - length row') with (r * n + d) by lia.
    by apply IH.
Qed.

Lemma length_concat_uniform {A} (rows : list (list A)) (n : nat) :
  Forall (fun row => length row = n) rows ->
  length (concat rows) = length rows * n.
Proof.
  induction 1 as [|row rows Hrow _ IH]; simpl; [done|].
  by rewrite length_app, IH, Hrow.
Qed.

(** What [calc_chord_freqs] returns for a list of chords is, chord by
    chord, what it returns for each chord alone. *)
Lemma calc_chord_freqs_pointwise (chord_names : list string)
    (chord_intervals : list (list Z)) (root_note : string)
    (notes_dict : gmap string float) (all_notes : list float)
    (v : list (list float)) :
  calc_chord_freqs chord_names chord_intervals root_note notes_dict all_notes
  = Returns v ->
  Forall2 (fun chord freq =>
    calc_chord_freqs chord_names [chord] root_note notes_dict all_notes
    = Returns [freq]) chord_intervals v.
Proof.
  unfold calc_chord_freqs, py_getitem.
  destruct (notes_dict !! root_note) as [f|]; simpl; [|done].
  intros (ys & -> & Hys)%for_each_returns_inv. simpl.
  eapply Forall2_impl; [exact Hys|].
  intros chord freq Hc. simpl in Hc. by rewrite Hc.
Qed.

Lemma chord_frequencies_returns_inv (roots chord_names : list string)
    (chord_intervals : list (list Z)) (notes_dict : gmap string float)
    (all_notes : list float) (fs : list (list float)) :
  chord_frequencies roots chord_names chord_intervals notes_dict all_notes
  = Returns fs ->
  exists temp,
    fs = concat temp
    /\ Forall2 (fun root_note v =>
         calc_chord_freqs chord_names chord_intervals root_note notes_dict
           all_notes = Returns v) roots temp.
Proof.
  unfold chord_frequencies, temp_chord_frequencies.
  destruct (for_each _ roots []) as [temp|e] eqn:Htemp; simpl; [|done].
  intros [= <-].
  apply for_each_returns_inv in Htemp as (ys & -> & Hys).
  exists ys. by rewrite flatten_chords_concat.
Qed.

Lemma chord_frequencies_returns (roots chord_names : list string)
    (chord_intervals : list (list Z)) (notes_dict : gmap string float)
    (all_notes : list float) :
  (forall root_note, root_note ∈ roots ->
     exists v, calc_chord_freqs chord_names chord_intervals root_note
                 notes_dict all_notes = Returns v) ->
  exists fs,
    chord_frequencies roots chord_names chord_intervals notes_dict all_notes
    = Returns fs.
Proof.
  intros Hall. unfold chord_frequencies, temp_chord_frequencies.
  destruct (for_each_total
              (fun root_note =>
                 calc_chord_freqs chord_names chord_intervals root_note
                   notes_dict all_notes) roots [] Hall) as (temp & -> & _).
  by eexists.
Qed.

(** C8: when every root resolves, the batch loops of [chords] return one
    frequency list per (root, chord definition) pair, [length roots *
    length chord_intervals] in all, definitions nested within roots: the
    entry at index [r * length chord_intervals + d] is what
    [calc_chord_freqs] returns for root [r] and definition [d] alone, and
    the name that [zip] pairs with it is prefix [r] followed by suffix
    [d]. *)
Theorem chord_frequencies_order (roots prefixes suffixes chord_names : list string)
    (chord_intervals : list (list Z)) (notes_dict : gmap string float)
    (all_notes : list float) :
  length suffixes = length chord_intervals ->
  (forall root_note, root_note ∈ roots ->
     exists v, calc_chord_freqs chord_names chord_intervals root_note
                 notes_dict all_notes = Returns v) ->
  exists fs,
    chord_frequencies roots chord_names chord_intervals notes_dict all_notes
    = Returns fs
    /\ length fs = length roots * length chord_intervals
    /\ forall r d root_note chord pre suff,
         roots !! r = Some root_note -> chord_intervals !! d = Some chord ->
         prefixes !! r = Some pre -> suffixes !! d = Some suff ->
         exists freq,
           calc_chord_freqs chord_names [chord] root_note notes_dict all_notes
           = Returns [freq]
           /\ zip (combine_prefix_suffix prefixes suffixes "suffixes_first") fs
                !! (r * length chord_intervals + d)
              = Some (pre +:+ suff, freq).
Proof.
  intros Hlen Hall.
  destruct (chord_frequencies_returns roots chord_names chord_intervals
              notes_dict all_notes Hall) as [fs Hfs].
  exists fs. split; [done|].
  apply chord_frequencies_returns_inv in Hfs as (temp & -> & Htemp).
  assert (Hrows : Forall (fun row => length row = length chord_intervals) temp).
  { apply Forall_forall. intros v Hv.
    apply list_elem_of_lookup_1 in Hv as [r Hr].
    destruct (Forall2_lookup_r _ _ _ _ _ Htemp Hr) as (root_note & _ & Hv).
    apply calc_chord_freqs_pointwise, Forall2_length in Hv. done. }
  split.
  - rewrite (length_concat_uniform temp _ Hrows).
    by rewrite (Forall2_length _ _ _ Htemp).
  - intros r d root_note chord pre suff Hr Hd Hpre Hsuff.
    destruct (Forall2_lookup_l _ _ _ _ _ Htemp Hr) as (v & Hv & Hcalc).
    apply calc_chord_freqs_pointwise in Hcalc.
    destruct (Forall2_lookup_l _ _ _ _ _ Hcalc Hd) as (freq & Hfreq & Hone).
    exists freq. split; [done|].
    apply lookup_zip_with_Some. exists (pre +:+ suff), freq.
    split; [done|]. split.
    + rewrite combine_suffixes_first, <- Hlen.
      by apply (lookup_grid (fun pre suff => pre +:+ suff)).
    + rewrite (lookup_concat_uniform temp _ r d v Hrows Hv); [done|].
      by eapply lookup_lt_Some.
Qed.

Lemma chord_frequencies_order_witness :
  exists fs,
    chord_frequencies ["C4"; "D4"] Chords.chord_names [Chords.i0; Chords.i1]
      Chords.notes_dict Chords.all_notes
    = Returns fs
    /\ length fs = 2 * 2
    /\ forall r d root_note chord pre suff,
         ["C4"; "D4"] !! r = Some root_note ->
         [Chords.i0; Chords.i1] !! d = Some chord ->
         ["C"; "D"] !! r = Some pre -> [" "; "m"] !! d = Some suff ->
         exists freq,
           calc_chord_freqs Chords.chord_names [chord] root_note
             Chords.notes_dict Chords.all_notes
           = Returns [freq]
           /\ zip (combine_prefix_suffix ["C"; "D"] [" "; "m"]
                    "suffixes_first") fs
                !! (r * 2 + d)
              = Some (pre +:+ suff, freq).
Proof.
  apply (chord_frequencies_order ["C4"; "D4"] ["C"; "D"] [" "; "m"]
           Chords.chord_names [Chords.i0; Chords.i1] Chords.notes_dict
           Chords.all_notes).
  - reflexivity.
  - intros root_note Hin.
    apply elem_of_cons in Hin as [->|Hin]; [eexists; vm_compute; reflexivity|].
    apply elem_of_cons in Hin as [->|Hin]; [eexists; vm_compute; reflexivity|].
    by apply elem_of_nil in Hin.
Defined.

Lemma chord_names_distinct :
  NoDup Chords.chord_names /\ length Chords.chord_names = 12 * 25.
Proof.
  split; [|reflexivity]. apply (bool_decide_unpack _). vm_compute. exact I.
Qed.

(** The example of the specification, with the program's names for the
    major and the minor triad: four entries, C4 before D4 and within each
    root the major chord before the minor one. *)
Example chord_frequencies_two_roots :
  (fs <~ chord_frequencies ["C4"; "D4"] Chords.chord_names
           [Chords.i0; Chords.i1] Chords.notes_dict Chords.all_notes ;;
   Returns (zip (combine_prefix_suffix ["C"; "D"] [" "; "m"]
                   "suffixes_first") fs))
  = Returns [("C ", [261.6256; 329.632; 392]); ("Cm", [261.6256; 311.1264; 392]);
             ("D ", [293.664; 370.016; 440]);
             ("Dm", [293.664; 349.248; 440])]%float.
Proof. vm_compute. reflexivity. Qed.

(** ** Names and frequencies of the table of [chords] *)

Lemma float_ltb_irrefl (x : float) : PrimFloat.ltb x x = false.
Proof.
  destruct (PrimFloat.ltb x x) eqn:Hx; [|done].
  pose proof (float_ltb_neq _ _ Hx) as Hne.
  destruct (float_ltb_eqb_refl _ _ Hx) as [Heq _]. congruence.
Qed.

(** In an ascending list, a frequency stored past the last name is the
    value of no name. *)
Lemma unnamed_past_names (note_names : list string) (all_notes : list float)
    (i : nat) (f : float) :
  strictly_increasing all_notes = true ->
  length note_names <= i -> all_notes !! i = Some f ->
  ~ exists name, py_dict (zip note_names all_notes) !! name = Some f.
Proof.
  intros Hs Hi Hf [name Hname].
  apply py_dict_zip_lookup_inv in Hname as (r & Hr & Hrf).
  apply lookup_lt_Some in Hr.
  assert (Hlt : PrimFloat.ltb f f = true).
  { apply (strictly_increasing_lookup all_notes r i); [done | lia | done..]. }
  by rewrite float_ltb_irrefl in Hlt.
Qed.

(** C9 on the code: [chords] builds 132 distinct names and 144
    frequencies.  [zip] stops at the shorter list, so the mapping has 132
    entries and the twelve frequencies of the last generated octave are
    the value of no name.  The table of [main] is built from twelve
    octave suffixes and has as many names as frequencies. *)
Theorem notes_dict_top_octave_unnamed :
  length Chords.note_names = 132
  /\ NoDup Chords.note_names
  /\ length Chords.all_notes = 144
  /\ size Chords.notes_dict = 132
  /\ Forall (fun f => ~ exists name, Chords.notes_dict !! name = Some f)
       (drop 132 Chords.all_notes)
  /\ length (drop 132 Chords.all_notes) = 12
  /\ length Main.note_names = length Main.all_notes.
Proof.
  split; [reflexivity|]. split.
  { apply (bool_decide_unpack _). vm_compute. exact I. }
  split; [reflexivity|]. split; [vm_compute; reflexivity|].
  split; [|split; reflexivity].
  apply Forall_forall. intros f Hf.
  apply list_elem_of_lookup_1 in Hf as [i Hi].
  rewrite lookup_drop in Hi.
  apply (unnamed_past_names _ _ (132 + i) f all_notes_ascending);
    [|exact Hi].
  replace (length Chords.note_names) with 132 by reflexivity. lia.
Qed.

(** ** The result of [chords] *)

Lemma c_chord_frequencies_returns :
  exists v,
    calc_chord_freqs Chords.chord_names Chords.chord_intervals
      Chords.root_note_c4 Chords.notes_dict Chords.all_notes = Returns v.
Proof. vm_compute. eexists. reflexivity. Qed.

Lemma all_chord_frequencies_returns :
  exists v,
    chord_frequencies Chords.middle_c_chromatic Chords.chord_names
      Chords.chord_intervals Chords.notes_dict Chords.all_notes = Returns v.
Proof. vm_compute. eexists. reflexivity. Qed.

(** C10: for every argument other than the strings ['c'] and ['all'],
    [chords] runs to the end of its body and returns [None]: it raises
    nothing and returns no mapping, not even an empty one. *)
Theorem chords_other_range (range : pyobj) :
  range <> PyStr "c" -> range <> PyStr "all" ->
  chords range = Returns None.
Proof.
  intros Hc Hall. unfold chords.
  destruct c_chord_frequencies_returns as [v1 ->].
  destruct all_chord_frequencies_returns as [v2 ->].
  simpl.
  assert (Hc' : py_eq_str range "c" = false).
  { destruct range as [| | | |s]; try done. simpl.
    destruct (String.eqb_spec s "c"); congruence. }
  assert (Hall' : py_eq_str range "all" = false).
  { destruct range as [| | | |s]; try done. simpl.
    destruct (String.eqb_spec s "all"); congruence. }
  by rewrite Hc', Hall'.
Qed.

Lemma chords_other_range_witness :
  chords (PyStr "C") = Returns None /\ chords PyNone = Returns None.
Proof.
  split; apply chords_other_range; discriminate.
Defined.

(** * Further properties of the code *)

(** ** [combine_prefix_suffix] *)

Lemma grid_nil_iff {A B C : Type} (g : A -> B -> C) (rows : list A)
    (cols : list B) :
  flat_map (fun a => map (g a) cols) rows = [] <-> rows = [] \/ cols = [].
Proof.
  split.
  - intros H. apply (f_equal length) in H. rewrite length_grid in H.
    simpl in H. destruct rows, cols; auto; simpl in H; lia.
  - intros [-> | ->]; [done|]. induction rows as [|a rows IH]; [done|].
    simpl. exact IH.
Qed.

(** With ['prefixes_first'] the suffixes are the outer loop: the name of
    suffix [s] and prefix [p] is at index [s * len(prefixes) + p].  With
    ['suffixes_first'] the prefixes are the outer loop and the name is at
    index [p * len(suffixes) + s].  Both results have
    [len(prefixes) * len(suffixes)] names. *)
Theorem combine_prefix_suffix_index (prefixes suffixes : list string)
    (p s : nat) (pre suff : string) :
  prefixes !! p = Some pre -> suffixes !! s = Some suff ->
  combine_prefix_suffix prefixes suffixes "prefixes_first"
    !! (s * length prefixes + p) = Some (pre +:+ suff)
  /\ combine_prefix_suffix prefixes suffixes "suffixes_first"
       !! (p * length suffixes + s) = Some (pre +:+ suff)
  /\ length (combine_prefix_suffix prefixes suffixes "prefixes_first")
     = length prefixes * length suffixes
  /\ length (combine_prefix_suffix prefixes suffixes "suffixes_first")
     = length prefixes * length suffixes.
Proof.
  intros Hp Hs. rewrite combine_prefixes_first, combine_suffixes_first.
  split; [|split; [|split]].
  - by apply (lookup_grid (fun suff pre => pre +:+ suff)).
  - by apply (lookup_grid (fun pre suff => pre +:+ suff)).
  - rewrite length_grid. lia.
  - by rewrite length_grid.
Qed.

Lemma combine_prefix_suffix_index_witness :
  Chords.note_names !! (5 * 12 + 9) = Some "A4"
  /\ Chords.chord_names !! (9 * 25 + 1) = Some "Am".
Proof.
  split.
  - apply (combine_prefix_suffix_index Chords.note_name_prefixes
             Chords.note_name_suffixes 9 5 "A" "4"); reflexivity.
  - apply (combine_prefix_suffix_index Chords.chord_name_prefixes
             Chords.chord_name_suffixes 9 1 "A" "m"); reflexivity.
Defined.

(** The result is empty exactly when the order is neither of the two
    recognised strings or one of the two lists is empty; an unrecognised
    order is not reported. *)
Theorem combine_prefix_suffix_empty_iff (prefixes suffixes : list string)
    (order : string) :
  combine_prefix_suffix prefixes suffixes order = []
  <-> (order <> "prefixes_first" /\ order <> "suffixes_first")
      \/ prefixes = [] \/ suffixes = [].
Proof.
  destruct (String.eqb_spec order "prefixes_first") as [->|Hpf].
  - rewrite combine_prefixes_first, grid_nil_iff. split.
    + intros [->| ->]; auto.
    + intros [[H _]|[->| ->]]; [done|auto..].
  - destruct (String.eqb_spec order "suffixes_first") as [->|Hsf].
    + rewrite combine_suffixes_first, grid_nil_iff. split.
      * intros [->| ->]; auto.
      * intros [[_ H]|[->| ->]]; [done|auto..].
    + unfold combine_prefix_suffix.
      apply String.eqb_neq in Hpf, Hsf. rewrite Hpf, Hsf.
      apply String.eqb_neq in Hpf, Hsf. split; [auto|done].
Qed.

Lemma flat_map_cons_Permutation {A B : Type} (f : A -> B)
    (h : A -> list B) (l : list A) :
  flat_map (fun a => f a :: h a) l ≡ₚ map f l ++ flat_map h l.
Proof.
  induction l as [|a l IH]; simpl; [done|].
  rewrite IH. apply Permutation_skip.
  by rewrite !app_assoc, (Permutation_app_comm (h a) (map f l)).
Qed.

Lemma grid_transpose_Permutation {A B C : Type} (g : A -> B -> C)
    (rows : list A) (cols : list B) :
  flat_map (fun a => map (g a) cols) rows
  ≡ₚ flat_map (fun b => map (fun a => g a b) rows) cols.
Proof.
  induction rows as [|a rows IH]; simpl.
  - induction cols as [|b cols IHc]; simpl; [done | exact IHc].
  - rewrite IH. symmetry.
    apply (flat_map_cons_Permutation (g a)
             (fun b => map (fun a => g a b) rows)).
Qed.

(** The two orders produce the same names, each the same number of
    times: one result is a rearrangement of the other. *)
Theorem combine_prefix_suffix_orders_Permutation
    (prefixes suffixes : list string) :
  combine_prefix_suffix prefixes suffixes "prefixes_first"
  ≡ₚ combine_prefix_suffix prefixes suffixes "suffixes_first".
Proof.
  rewrite combine_prefixes_first, combine_suffixes_first.
  apply (grid_transpose_Permutation (fun suff pre => pre +:+ suff)).
Qed.

(** Every name produced is a prefix followed by a suffix, and every such
    combination is produced, whichever recognised order is asked for. *)
Theorem combine_prefix_suffix_elem_of (prefixes suffixes : list string)
    (x : string) :
  (x ∈ combine_prefix_suffix prefixes suffixes "suffixes_first"
   <-> exists pre suff,
         pre ∈ prefixes /\ suff ∈ suffixes /\ x = pre +:+ suff)
  /\ (x ∈ combine_prefix_suffix prefixes suffixes "prefixes_first"
      <-> exists pre suff,
            pre ∈ prefixes /\ suff ∈ suffixes /\ x = pre +:+ suff).
Proof.
  assert (Hsf : x ∈ combine_prefix_suffix prefixes suffixes "suffixes_first"
    <-> exists pre suff,
          pre ∈ prefixes /\ suff ∈ suffixes /\ x = pre +:+ suff).
  { rewrite combine_suffixes_first, list_elem_of_In, in_flat_map. split.
    - intros (pre & Hpre & Hx). apply in_map_iff in Hx as (suff & <- & Hsuff).
      exists pre, suff. by rewrite !list_elem_of_In.
    - intros (pre & suff & Hpre & Hsuff & ->). exists pre.
      rewrite list_elem_of_In in Hpre, Hsuff. split; [done|].
      apply in_map_iff. by exists suff. }
  split; [exact Hsf|].
  by rewrite (combine_prefix_suffix_orders_Permutation prefixes suffixes).
Qed.

(** ** Names and frequencies of a generated table *)

(** Entry [i] of a table built from [n] prefixes and [n] base frequencies
    pairs the name of pitch class [i mod n] in octave [i / n] with that
    pitch class's base frequency times [2^(i / n)], for every [i] below
    both the [n * n] frequencies and the [n * len(suffixes)] names. *)
Theorem note_table_index (prefixes suffixes : list string)
    (input_scale : list float) (i : nat) :
  length prefixes = length input_scale ->
  i < length input_scale * length input_scale ->
  i < length input_scale * length suffixes ->
  exists pre suff f,
    prefixes !! (i mod length input_scale) = Some pre
    /\ suffixes !! (i / length input_scale) = Some suff
    /\ input_scale !! (i mod length input_scale) = Some f
    /\ zip (combine_prefix_suffix prefixes suffixes "prefixes_first")
           (calc_all_notes input_scale) !! i
       = Some (pre +:+ suff, calc_octave f (i / length input_scale)).
Proof.
  intros Hlen Hfreq Hname.
  assert (Hn : length input_scale <> 0) by lia.
  pose proof (Nat.mod_upper_bound i _ Hn) as Hmod.
  assert (Hdiv : i / length input_scale < length input_scale)
    by (apply Nat.Div0.div_lt_upper_bound; lia).
  assert (Hdiv' : i / length input_scale < length suffixes)
    by (apply Nat.Div0.div_lt_upper_bound; lia).
  pose proof (Nat.div_mod_eq i (length input_scale)) as Hi.
  destruct (lookup_lt_is_Some_2 prefixes (i mod length input_scale))
    as [pre Hpre]; [lia|].
  destruct (lookup_lt_is_Some_2 suffixes (i / length input_scale))
    as [suff Hsuff]; [done|].
  destruct (lookup_lt_is_Some_2 input_scale (i mod length input_scale))
    as [f Hf]; [done|].
  exists pre, suff, f. repeat split; try done.
  apply lookup_zip_with_Some.
  exists (pre +:+ suff), (calc_octave f (i / length input_scale)).
  split; [done|].
  pose proof (lookup_grid (fun suff pre => pre +:+ suff) suffixes prefixes
                _ _ _ _ Hsuff Hpre) as Hnames.
  pose proof (lookup_calc_all_notes input_scale _ _ f Hdiv Hf) as Hfreqs.
  rewrite Hlen in Hnames.
  replace (i / length input_scale * length input_scale
           + i mod length input_scale) with i in Hnames, Hfreqs by lia.
  split; [by rewrite combine_prefixes_first | done].
Qed.

Lemma note_table_index_witness :
  exists pre suff f,
    MainSeries.diatonic_prefixes !! (34 mod 7) = Some pre
    /\ MainSeries.diatonic_suffixes !! (34 / 7) = Some suff
    /\ MainSeries.df_1 !! (34 mod 7) = Some f
    /\ zip MainSeries.diatonic_note_names MainSeries.all_diatonic_notes !! 34
       = Some (pre +:+ suff, calc_octave f (34 / 7)).
Proof.
  apply (note_table_index MainSeries.diatonic_prefixes
           MainSeries.diatonic_suffixes MainSeries.df_1 34);
    [reflexivity | simpl; lia | simpl; lia].
Defined.

(** When the generated names are distinct, the mapping built by
    [dict(zip(names, frequencies))] sends the name of prefix [p] and
    suffix [o] to the [p]-th base frequency times [2^o] if octave [o]
    was generated ([o < n]), and has no entry for that name otherwise. *)
Theorem notes_dict_name_lookup (prefixes suffixes : list string)
    (input_scale : list float) (o p : nat) (pre suff : string) (f : float) :
  NoDup (combine_prefix_suffix prefixes suffixes "prefixes_first") ->
  length prefixes = length input_scale ->
  prefixes !! p = Some pre -> suffixes !! o = Some suff ->
  input_scale !! p = Some f ->
  let notes_dict :=
    py_dict (zip (combine_prefix_suffix prefixes suffixes "prefixes_first")
                 (calc_all_notes input_scale)) in
  (o < length input_scale ->
   notes_dict !! (pre +:+ suff) = Some (calc_octave f o))
  /\ (length input_scale <= o -> notes_dict !! (pre +:+ suff) = None).
Proof.
  intros Hnd Hlen Hpre Hsuff Hf notes_dict.
  assert (Hname : combine_prefix_suffix prefixes suffixes "prefixes_first"
                    !! (o * length prefixes + p) = Some (pre +:+ suff)).
  { rewrite combine_prefixes_first.
    by apply (lookup_grid (fun suff pre => pre +:+ suff)). }
  split.
  - intros Ho. apply (py_dict_zip_lookup _ _ (o * length prefixes + p));
      [done | done |].
    rewrite Hlen. by apply lookup_calc_all_notes.
  - intros Ho. destruct (notes_dict !! (pre +:+ suff)) as [v|] eqn:Hv; [|done].
    apply py_dict_zip_lookup_inv in Hv as (r & Hr & Hrv).
    assert (r = o * length prefixes + p) as ->
      by (by eapply NoDup_lookup).
    apply lookup_lt_Some in Hrv. rewrite length_calc_all_notes in Hrv.
    rewrite Hlen in Hrv. nia.
Qed.

Lemma notes_dict_name_lookup_witness :
  Chords.notes_dict !! "A4" = Some 440%float.
Proof.
  apply (notes_dict_name_lookup Chords.note_name_prefixes
           Chords.note_name_suffixes Chords.cf_1 5 9 "A" "4" 13.750%float).
  - apply (bool_decide_unpack _). vm_compute. exact I.
  - reflexivity.
  - reflexivity.
  - reflexivity.
  - reflexivity.
  - simpl. lia.
Defined.

(** ** The position scan and the resolver on arbitrary inputs *)

Lemma scan_pos_shift (all_notes : list float) (f : float) (n : nat) :
  scan_pos all_notes f n = n + scan_pos all_notes f 0.
Proof.
  revert n; induction all_notes as [|a l IH]; intros n; simpl; [lia|].
  destruct (PrimFloat.eqb a f); [lia|].
  rewrite (IH (n + 1)), (IH 1). lia.
Qed.

(** The scan returns the least index whose entry is [==] to the root's
    frequency, and the length of the list when no entry is: entries
    before the position differ, the entry at the position, if there is
    one, is equal. *)
Theorem scan_pos_least (all_notes : list float) (f : float) :
  scan_pos all_notes f 0 <= length all_notes
  /\ (forall j x, j < scan_pos all_notes f 0 -> all_notes !! j = Some x ->
      PrimFloat.eqb x f = false)
  /\ (scan_pos all_notes f 0 < length all_notes ->
      exists x, all_notes !! scan_pos all_notes f 0 = Some x
                /\ PrimFloat.eqb x f = true)
  /\ (scan_pos all_notes f 0 = length all_notes
      <-> forall x, x ∈ all_notes -> PrimFloat.eqb x f = false).
Proof.
  induction all_notes as [|a l (Hle & Hbefore & Hat & Hnone)]; simpl.
  - split; [lia|]. split; [intros; lia|]. split; [lia|].
    split; [by intros _ x Hx%elem_of_nil | done].
  - destruct (PrimFloat.eqb a f) eqn:Ha.
    + split; [lia|]. split; [intros; lia|].
      split; [intros _; by exists a|].
      split; [done|]. intros H. rewrite H in Ha; [done | by left].
    + rewrite (scan_pos_shift l f 1).
      split; [lia|]. split; [|split; [|split]].
      * intros [|j] x Hj Hx; simpl in Hx; [by injection Hx as <-|].
        apply (Hbefore j); [lia | done].
      * intros Hlt. destruct Hat as (x & Hx & Hxf); [lia|]. by exists x.
      * intros H. assert (Hl : scan_pos l f 0 = length l) by lia.
        intros x [->|Hx]%elem_of_cons; [done|]. by apply Hnone.
      * intros H. f_equal. apply Hnone. intros x Hx. apply H. by right.
Qed.

Lemma float_eqb_nan (x f : float) :
  PrimFloat.eqb f f = false -> PrimFloat.eqb x f = false.
Proof.
  rewrite !FloatAxioms.eqb_spec. unfold SFeqb.
  destruct (Prim2SF f) as [[]|[]| |[] m e], (Prim2SF x) as [[]|[]| |[] m' e'];
    simpl; try done;
    rewrite Z.compare_refl;
    change (Pos.compare_cont Eq m m) with (Pos.compare m m);
    by rewrite Pos.compare_refl.
Qed.

(** A root whose stored frequency the scan cannot find — a NaN, which is
    [==] to nothing, or a frequency that is in the mapping but not in the
    list — is located past the end of the list: every chord list holding
    an interval then raises [IndexError], although the root is a key of
    the mapping. *)
Theorem unlocated_root_raises (chord_names : list string)
    (chord_intervals : list (list Z)) (root_note : string)
    (notes_dict : gmap string float) (all_notes : list float) (f : float)
    (chord : list Z) (k : Z) :
  notes_dict !! root_note = Some f ->
  PrimFloat.eqb f f = false
  \/ (forall x, x ∈ all_notes -> PrimFloat.eqb x f = false) ->
  Forall (Forall (fun k => (0 <= k)%Z)) chord_intervals ->
  chord ∈ chord_intervals -> k ∈ chord ->
  scan_pos all_notes f 0 = length all_notes
  /\ calc_chord_freqs chord_names chord_intervals root_note notes_dict
       all_notes = Raises IndexError.
Proof.
  intros Hroot Hf Hnn Hchord Hk.
  assert (Hpos : scan_pos all_notes f 0 = length all_notes).
  { apply scan_pos_least. destruct Hf as [Hnan|Hf]; [|done].
    intros x _. by apply float_eqb_nan. }
  split; [done|].
  apply (calc_chord_freqs_outcome chord_names chord_intervals root_note
           notes_dict all_notes Hnn).
  exists f. split; [done|]. exists chord, k. split; [done|]. split; [done|].
  rewrite Forall_forall in Hnn. specialize (Hnn chord Hchord).
  rewrite Forall_forall in Hnn. specialize (Hnn k Hk). lia.
Qed.

Lemma unlocated_root_raises_witness :
  calc_chord_freqs [] [[0%Z]] "X" (py_dict [("X", nan)]) [nan; 440%float]
  = Raises IndexError.
Proof.
  apply (unlocated_root_raises [] [[0%Z]] "X" (py_dict [("X", nan)])
           [nan; 440%float] nan [0%Z] 0%Z).
  - vm_compute. reflexivity.
  - left. reflexivity.
  - repeat constructor; lia.
  - by left.
  - by left.
Defined.

(** A negative interval is not rejected as such.  When it puts the
    position below zero, the entry is counted from the end of the list;
    [IndexError] is raised only below minus the length of the list. *)
Theorem negative_interval_from_end (chord_names : list string)
    (root_note : string) (notes_dict : gmap string float)
    (all_notes : list float) (f : float) (k : Z) :
  notes_dict !! root_note = Some f ->
  (Z.of_nat (scan_pos all_notes f 0) + k < 0)%Z ->
  calc_chord_freqs chord_names [[k]] root_note notes_dict all_notes
  = match
      all_notes !! Z.to_nat (Z.of_nat (length all_notes)
                             + (Z.of_nat (scan_pos all_notes f 0) + k))
    with
    | Some x =>
        if (- Z.of_nat (length all_notes)
            <=? Z.of_nat (scan_pos all_notes f 0) + k)%Z
        then Returns [[x]] else Raises IndexError
    | None => Raises IndexError
    end.
Proof.
  intros Hroot Hneg. unfold calc_chord_freqs, py_getitem. rewrite Hroot.
  simpl. unfold chord_freq. simpl. unfold py_index.
  replace (Z.of_nat (scan_pos all_notes f 0) + k <? 0)%Z with true by lia.
  destruct (Z.leb_spec (- Z.of_nat (length all_notes))
              (Z.of_nat (scan_pos all_notes f 0) + k)) as [Hle|Hlt].
  - replace (_ <? 0)%Z with false by lia.
    replace (Z.of_nat (length all_notes) <=? _)%Z with false by lia.
    simpl. by destruct (all_notes !! _).
  - replace (_ <? 0)%Z with true by lia. simpl. by destruct (all_notes !! _).
Qed.

Lemma negative_interval_from_end_witness :
  calc_chord_freqs [] [[-1]%Z] "C-1" Chords.notes_dict Chords.all_notes
  = Returns [[31608.832%float]]
  /\ calc_chord_freqs [] [[-145]%Z] "C-1" Chords.notes_dict Chords.all_notes
     = Raises IndexError.
Proof.
  split.
  - rewrite (negative_interval_from_end [] "C-1" Chords.notes_dict
               Chords.all_notes 8.1758%float (-1)%Z);
      [reflexivity | reflexivity | vm_compute; reflexivity].
  - rewrite (negative_interval_from_end [] "C-1" Chords.notes_dict
               Chords.all_notes 8.1758%float (-145)%Z);
      [reflexivity | reflexivity | vm_compute; reflexivity].
Defined.

Lemma py_index_returns {A} (l : list A) (i : Z) (x : A) :
  py_index l i = Returns x -> x ∈ l.
Proof.
  unfold py_index. destruct (_ || _); [done|].
  destruct (l !! _) eqn:Hx; [|done]. intros [= <-].
  by eapply list_elem_of_lookup_2.
Qed.

(** Whatever the intervals, negative ones included, [KeyError] is raised
    exactly for a root that is not a key of the mapping, before any
    interval is looked at; and a returned result has one list per chord,
    each with one frequency per interval, every one of them an entry of
    the frequency list. *)
Theorem calc_chord_freqs_shape (chord_names : list string)
    (chord_intervals : list (list Z)) (root_note : string)
    (notes_dict : gmap string float) (all_notes : list float) :
  (calc_chord_freqs chord_names chord_intervals root_note notes_dict
     all_notes = Raises KeyError <-> notes_dict !! root_note = None)
  /\ forall freqs,
       calc_chord_freqs chord_names chord_intervals root_note notes_dict
         all_notes = Returns freqs ->
       Forall2 (fun chord fs =>
                  length fs = length chord
                  /\ Forall (fun x => x ∈ all_notes) fs)
               chord_intervals freqs.
Proof.
  unfold calc_chord_freqs, py_getitem.
  destruct (notes_dict !! root_note) as [f|]; simpl; [|by split].
  split.
  - split; [|done]. intros (chord & _ & Hc)%for_each_raises_inv.
    unfold chord_freq in Hc.
    apply for_each_raises_inv in Hc as (k & _ & Hk).
    by apply py_index_raises in Hk.
  - intros freqs (ys & -> & Hys)%for_each_returns_inv. simpl.
    eapply Forall2_impl; [exact Hys|]. intros chord fs Hfs.
    unfold chord_freq in Hfs.
    apply for_each_returns_inv in Hfs as (xs & -> & Hxs). simpl.
    split; [symmetry; by eapply Forall2_length|].
    clear -Hxs. induction Hxs as [|k x chord xs Hk _ IH]; constructor;
      [by eapply py_index_returns | done].
Qed.

Lemma calc_chord_freqs_shape_witness :
  Forall2 (fun chord fs =>
             length fs = length chord
             /\ Forall (fun x => x ∈ Chords.all_notes) fs)
          [[0; -1]%Z] [[261.6256; 246.944]%float].
Proof.
  apply (calc_chord_freqs_shape [] [[0; -1]%Z] "C4" Chords.notes_dict
           Chords.all_notes).
  vm_compute. reflexivity.
Defined.

(** ** The resolver on a well-formed table *)

(** On a table with distinct names and ascending frequencies the result
    for one chord is the list of entries at the root's rank plus each
    interval. *)
Lemma calc_chord_freqs_located (note_names chord_names : list string)
    (all_notes : list float) (root_note : string) (r : nat)
    (chord : list Z) (xs : list float) :
  NoDup note_names -> strictly_increasing all_notes = true ->
  note_names !! r = Some root_note -> r < length all_notes ->
  Forall2 (fun k x =>
             (0 <= k)%Z /\ all_notes !! (r + Z.to_nat k) = Some x) chord xs ->
  calc_chord_freqs chord_names [chord] root_note
    (py_dict (zip note_names all_notes)) all_notes
  = Returns [xs].
Proof.
  intros Hnd Hs Hname Hr Hxs.
  destruct (lookup_lt_is_Some_2 all_notes r Hr) as [f Hf].
  destruct (root_position_is_rank note_names all_notes root_note r f)
    as [Hd Hpos]; try done.
  unfold calc_chord_freqs, py_getitem. rewrite Hd. simpl. rewrite Hpos.
  unfold chord_freq.
  rewrite (for_each_returns
             (fun interval => py_index all_notes (Z.of_nat r + interval))
             chord xs []); [done|].
  eapply Forall2_impl; [exact Hxs|]. intros k x [Hk Hx]. simpl.
  by rewrite chord_freq_step, Hx.
Qed.

(** Intervals add up across roots: on a well-formed table, interval
    [k + j] above the root of rank [r] resolves to the same frequency as
    interval [j] above the root of rank [r + k]. *)
Theorem interval_transposes (note_names chord_names : list string)
    (all_notes : list float) (root1 root2 : string) (r k j : nat) :
  NoDup note_names -> strictly_increasing all_notes = true ->
  note_names !! r = Some root1 -> note_names !! (r + k) = Some root2 ->
  r + k + j < length all_notes ->
  exists x,
    all_notes !! (r + k + j) = Some x
    /\ calc_chord_freqs chord_names [[Z.of_nat (k + j)]] root1
         (py_dict (zip note_names all_notes)) all_notes = Returns [[x]]
    /\ calc_chord_freqs chord_names [[Z.of_nat j]] root2
         (py_dict (zip note_names all_notes)) all_notes = Returns [[x]].
Proof.
  intros Hnd Hs H1 H2 Hlt.
  destruct (lookup_lt_is_Some_2 all_notes (r + k + j) Hlt) as [x Hx].
  exists x. split; [done|]. split.
  - apply (calc_chord_freqs_located note_names chord_names all_notes
             root1 r); [done | done | done | lia |].
    repeat constructor; [lia|].
    by replace (r + Z.to_nat (Z.of_nat (k + j))) with (r + k + j) by lia.
  - apply (calc_chord_freqs_located note_names chord_names all_notes
             root2 (r + k)); [done | done | done | lia |].
    repeat constructor; [lia|].
    by rewrite Nat2Z.id.
Qed.

Lemma interval_transposes_witness :
  exists x,
    Chords.all_notes !! (60 + 4 + 3) = Some x
    /\ calc_chord_freqs [] [[Z.of_nat (4 + 3)]] "C4" Chords.notes_dict
         Chords.all_notes = Returns [[x]]
    /\ calc_chord_freqs [] [[Z.of_nat 3]] "E4" Chords.notes_dict
         Chords.all_notes = Returns [[x]].
Proof.
  apply (interval_transposes Chords.note_names [] Chords.all_notes
           "C4" "E4" 60 4 3).
  - apply (bool_decide_unpack _). vm_compute. exact I.
  - vm_compute. reflexivity.
  - reflexivity.
  - reflexivity.
  - vm_compute. lia.
Defined.

Lemma all_notes_octave_up (r : nat) (x : float) :
  r < 132 -> Chords.all_notes !! r = Some x ->
  Chords.all_notes !! (r + 12) = Some (2 * x)%float.
Proof.
  intros Hr.
  do 132 (destruct r as [|r];
    [vm_compute; intros [= <-]; reflexivity|]).
  lia.
Qed.

(** In the table of [chords] the interval of twelve semitones is the
    octave for every named root: the chord [[0, 12]] resolves to the
    root's frequency and exactly twice that frequency. *)
Theorem octave_interval_doubles (root_note : string) (f : float) :
  Chords.notes_dict !! root_note = Some f ->
  calc_chord_freqs Chords.chord_names [[0; 12]%Z] root_note
    Chords.notes_dict Chords.all_notes
  = Returns [[f; (2 * f)%float]].
Proof.
  intros Hroot.
  apply py_dict_zip_lookup_inv in Hroot as (r & Hname & Hf).
  assert (Hr : r < 132).
  { apply lookup_lt_Some in Hname. exact Hname. }
  apply (calc_chord_freqs_located Chords.note_names Chords.chord_names
           Chords.all_notes root_note r).
  - apply (bool_decide_unpack _). vm_compute. exact I.
  - exact all_notes_ascending.
  - exact Hname.
  - by eapply lookup_lt_Some.
  - repeat constructor; try lia.
    + by replace (r + Z.to_nat 0) with r by lia.
    + replace (r + Z.to_nat 12) with (r + 12) by lia.
      by apply all_notes_octave_up.
Qed.

Lemma octave_interval_doubles_witness :
  calc_chord_freqs Chords.chord_names [[0; 12]%Z] "A4"
    Chords.notes_dict Chords.all_notes
  = Returns [[440; 880]%float].
Proof.
  apply (octave_interval_doubles "A4" 440%float). vm_compute. reflexivity.
Defined.

(** ** The mappings returned by [chords] *)

Lemma size_py_dict_zip {V} (names : list string) (vals : list V) :
  NoDup names -> length names = length vals ->
  size (py_dict (zip names vals)) = length names.
Proof.
  intros Hnd Hlen. rewrite py_dict_list_to_map, map_size_list_to_map.
  - rewrite length_reverse, length_zip_with. lia.
  - rewrite fmap_reverse, reverse_Permutation. by apply NoDup_zip_fst.
Qed.

Lemma chord_frequencies_shape (roots chord_names : list string)
    (chord_intervals : list (list Z)) (notes_dict : gmap string float)
    (all_notes : list float) (fs : list (list float)) :
  chord_frequencies roots chord_names chord_intervals notes_dict all_notes
  = Returns fs ->
  length fs = length roots * length chord_intervals
  /\ forall r d root_note chord,
       roots !! r = Some root_note -> chord_intervals !! d = Some chord ->
       exists freq,
         fs !! (r * length chord_intervals + d) = Some freq
         /\ calc_chord_freqs chord_names [chord] root_note notes_dict
              all_notes = Returns [freq].
Proof.
  intros (temp & -> & Htemp)%chord_frequencies_returns_inv.
  assert (Hrows : Forall (fun row => length row = length chord_intervals) temp).
  { apply Forall_forall. intros v Hv.
    apply list_elem_of_lookup_1 in Hv as [r Hr].
    destruct (Forall2_lookup_r _ _ _ _ _ Htemp Hr) as (root_note & _ & Hv).
    apply calc_chord_freqs_pointwise, Forall2_length in Hv. done. }
  split.
  - rewrite (length_concat_uniform temp _ Hrows).
    by rewrite (Forall2_length _ _ _ Htemp).
  - intros r d root_note chord Hr Hd.
    destruct (Forall2_lookup_l _ _ _ _ _ Htemp Hr) as (v & Hv & Hcalc).
    apply calc_chord_freqs_pointwise in Hcalc.
    destruct (Forall2_lookup_l _ _ _ _ _ Hcalc Hd) as (freq & Hfreq & Hone).
    exists freq. split; [|done].
    rewrite (lookup_concat_uniform temp _ r d v Hrows Hv); [done|].
    by eapply lookup_lt_Some.
Qed.

Lemma chords_branches (range : pyobj) (v1 v2 : list (list float)) :
  calc_chord_freqs Chords.chord_names Chords.chord_intervals
    Chords.root_note_c4 Chords.notes_dict Chords.all_notes = Returns v1 ->
  chord_frequencies Chords.middle_c_chromatic Chords.chord_names
    Chords.chord_intervals Chords.notes_dict Chords.all_notes = Returns v2 ->
  chords range
  = if py_eq_str range "c"
    then Returns (Some (py_dict (zip Chords.c_chord_names v1)))
    else if py_eq_str range "all"
         then Returns (Some (py_dict (zip Chords.chord_names v2)))
         else Returns None.
Proof. intros H1 H2. unfold chords. rewrite H1, H2. reflexivity. Qed.

Lemma chords_results :
  exists v1 v2,
    calc_chord_freqs Chords.chord_names Chords.chord_intervals
      Chords.root_note_c4 Chords.notes_dict Chords.all_notes = Returns v1
    /\ chord_frequencies Chords.middle_c_chromatic Chords.chord_names
         Chords.chord_intervals Chords.notes_dict Chords.all_notes
       = Returns v2
    /\ chords (PyStr "c")
       = Returns (Some (py_dict (zip Chords.c_chord_names v1)))
    /\ chords (PyStr "all")
       = Returns (Some (py_dict (zip Chords.chord_names v2))).
Proof.
  destruct c_chord_frequencies_returns as [v1 H1].
  destruct all_chord_frequencies_returns as [v2 H2].
  exists v1, v2. split; [exact H1|]. split; [exact H2|].
  pose proof (chords_branches (PyStr "c") v1 v2 H1 H2) as Hc.
  pose proof (chords_branches (PyStr "all") v1 v2 H1 H2) as Hall.
  change (py_eq_str (PyStr "c") "c") with true in Hc.
  change (py_eq_str (PyStr "all") "c") with false in Hall.
  change (py_eq_str (PyStr "all") "all") with true in Hall.
  split; [exact Hc | exact Hall].
Qed.

Lemma chord_names_lookup (r d : nat) (pre suff : string) :
  Chords.chord_name_prefixes !! r = Some pre ->
  Chords.chord_name_suffixes !! d = Some suff ->
  Chords.chord_names !! (r * length Chords.chord_intervals + d)
  = Some (pre +:+ suff).
Proof.
  intros Hpre Hsuff. unfold Chords.chord_names.
  rewrite combine_suffixes_first.
  change (length Chords.chord_intervals)
    with (length Chords.chord_name_suffixes).
  by apply (lookup_grid (fun pre suff => pre +:+ suff)).
Qed.

Lemma c_chord_names_distinct :
  NoDup Chords.c_chord_names /\ length Chords.c_chord_names = 25.
Proof.
  split; [|reflexivity]. apply (bool_decide_unpack _). vm_compute. exact I.
Qed.

(** [chords('all')] returns a mapping of 300 entries in which the name
    made of prefix [r] and suffix [d] has the frequencies that
    [calc_chord_freqs] gives for root [r] of [middle_c_chromatic] and
    chord definition [d]: no entry is overwritten by another. *)
Theorem chords_all_lookup (r d : nat) (root_note pre suff : string)
    (chord : list Z) :
  Chords.middle_c_chromatic !! r = Some root_note ->
  Chords.chord_name_prefixes !! r = Some pre ->
  Chords.chord_name_suffixes !! d = Some suff ->
  Chords.chord_intervals !! d = Some chord ->
  exists all_dict freq,
    chords (PyStr "all") = Returns (Some all_dict)
    /\ size all_dict = 300
    /\ all_dict !! (pre +:+ suff) = Some freq
    /\ calc_chord_freqs Chords.chord_names [chord] root_note
         Chords.notes_dict Chords.all_notes = Returns [freq].
Proof.
  intros Hroot Hpre Hsuff Hchord.
  destruct chords_results as (v1 & v2 & _ & H2 & _ & Hall).
  destruct (chord_frequencies_shape _ _ _ _ _ _ H2) as [Hlen Hat].
  destruct (Hat r d root_note chord Hroot Hchord) as (freq & Hfreq & Hone).
  destruct chord_names_distinct as [Hnd Hnames].
  exists (py_dict (zip Chords.chord_names v2)), freq.
  split; [done|]. split; [|split; [|done]].
  - rewrite size_py_dict_zip; [done | done |]. by rewrite Hlen.
  - apply (py_dict_zip_lookup _ _ (r * length Chords.chord_intervals + d));
      [done | | done].
    by apply chord_names_lookup.
Qed.

Lemma chords_all_lookup_witness :
  exists all_dict freq,
    chords (PyStr "all") = Returns (Some all_dict)
    /\ size all_dict = 300
    /\ all_dict !! ("A" +:+ "m") = Some freq
    /\ calc_chord_freqs Chords.chord_names [Chords.i1] "A5"
         Chords.notes_dict Chords.all_notes = Returns [freq].
Proof.
  apply (chords_all_lookup 9 1 "A5" "A" "m" Chords.i1); reflexivity.
Defined.

Lemma c_chord_dict_lookup (v1 : list (list float)) (d : nat)
    (name : string) (v : list float) :
  calc_chord_freqs Chords.chord_names Chords.chord_intervals
    Chords.root_note_c4 Chords.notes_dict Chords.all_notes = Returns v1 ->
  Chords.c_chord_names !! d = Some name -> v1 !! d = Some v ->
  exists suff chord,
    Chords.chord_name_suffixes !! d = Some suff
    /\ Chords.chord_intervals !! d = Some chord
    /\ name = "C" +:+ suff
    /\ calc_chord_freqs Chords.chord_names [chord] "C4" Chords.notes_dict
         Chords.all_notes = Returns [v].
Proof.
  intros H1 Hname Hv.
  apply calc_chord_freqs_pointwise in H1.
  destruct (Forall2_lookup_r _ _ _ _ _ H1 Hv) as (chord & Hchord & Hone).
  assert (Hd : d < length Chords.chord_name_suffixes).
  { apply lookup_lt_Some in Hchord. exact Hchord. }
  destruct (lookup_lt_is_Some_2 _ _ Hd) as [suff Hsuff].
  exists suff, chord. repeat split; try done.
  pose proof (lookup_grid (fun pre suff => pre +:+ suff)
                Chords.c_chord_name_prefixes Chords.chord_name_suffixes
                0 d "C" suff eq_refl Hsuff) as Hgrid.
  unfold Chords.c_chord_names in Hname.
  rewrite combine_suffixes_first in Hname. simpl in Hgrid.
  simpl in Hname. congruence.
Qed.

(** [chords('c')] returns a mapping of 25 entries, and each of them is
    an entry of the mapping [chords('all')] returns: the chords of C4 are
    the same in both. *)
Theorem chords_c_within_all :
  exists c_dict all_dict,
    chords (PyStr "c") = Returns (Some c_dict)
    /\ chords (PyStr "all") = Returns (Some all_dict)
    /\ size c_dict = 25
    /\ c_dict ⊆ all_dict.
Proof.
  destruct chords_results as (v1 & v2 & H1 & H2 & Hc & Hall).
  exists (py_dict (zip Chords.c_chord_names v1)),
         (py_dict (zip Chords.chord_names v2)).
  split; [done|]. split; [done|].
  destruct c_chord_names_distinct as [Hndc Hlenc].
  destruct chord_names_distinct as [Hnd _].
  split.
  - rewrite size_py_dict_zip; [done | done |].
    apply calc_chord_freqs_pointwise, Forall2_length in H1.
    rewrite Hlenc, <- H1. reflexivity.
  - apply map_subseteq_spec. intros name v Hin.
    apply py_dict_zip_lookup_inv in Hin as (d & Hname & Hv).
    destruct (c_chord_dict_lookup v1 d name v H1 Hname Hv)
      as (suff & chord & Hsuff & Hchord & -> & Hone).
    destruct (chord_frequencies_shape _ _ _ _ _ _ H2) as [_ Hat].
    destruct (Hat 0 d "C4" chord eq_refl Hchord) as (freq & Hfreq & Hone').
    assert (freq = v) as -> by congruence.
    apply (py_dict_zip_lookup _ _ (0 * length Chords.chord_intervals + d));
      [done | | done].
    by apply chord_names_lookup.
Qed.

(** ** The series of [main] *)

Lemma py_slice_lookup {A} (l : list A) (a b j : nat) (x : A) :
  py_slice l a b !! j = Some x <-> l !! (a + j) = Some x /\ a + j < b.
Proof.
  unfold py_slice. rewrite lookup_take_Some, lookup_drop.
  split; intros [H ?]; (split; [done | lia]).
Qed.

(** Slices taken with the same bounds from the names and from the
    frequencies stay aligned: when the names are distinct, the label at
    each position of the name slice is, in the mapping built from the two
    whole lists, the name of the frequency at the same position of the
    frequency slice; and a slice has at most [b - a] entries, all of them
    entries of the list. *)
Theorem slices_stay_aligned (names : list string) (vals : list float)
    (a b j : nat) (name : string) (v : float) :
  NoDup names ->
  py_slice names a b !! j = Some name -> py_slice vals a b !! j = Some v ->
  py_dict (zip names vals) !! name = Some v
  /\ names !! (a + j) = Some name /\ vals !! (a + j) = Some v
  /\ length (py_slice vals a b) <= b - a.
Proof.
  intros Hnd [Hname _]%py_slice_lookup [Hv _]%py_slice_lookup.
  split; [by eapply py_dict_zip_lookup|]. split; [done|]. split; [done|].
  unfold py_slice. rewrite length_take. lia.
Qed.

Lemma slices_stay_aligned_witness :
  Main.notes_dict !! "C4" = Some 261.6256%float
  /\ Main.note_names !! (59 + 1) = Some "C4"
  /\ Main.all_notes !! (59 + 1) = Some 261.6256%float
  /\ length MainSeries.middle_c <= 73 - 59.
Proof.
  apply (slices_stay_aligned Main.note_names Main.all_notes 59 73 1).
  - apply (bool_decide_unpack _). vm_compute. exact I.
  - reflexivity.
  - reflexivity.
Defined.

Lemma calc_chord_freqs_located_inv (note_names chord_names : list string)
    (all_notes : list float) (root_note : string) (r : nat)
    (chord : list Z) (fs : list float) :
  NoDup note_names -> strictly_increasing all_notes = true ->
  note_names !! r = Some root_note -> r < length all_notes ->
  Forall (fun k => (0 <= k)%Z) chord ->
  calc_chord_freqs chord_names [chord] root_note
    (py_dict (zip note_names all_notes)) all_notes = Returns [fs] ->
  Forall2 (fun k x => all_notes !! (r + Z.to_nat k) = Some x) chord fs.
Proof.
  intros Hnd Hs Hname Hr Hnn H.
  destruct (lookup_lt_is_Some_2 all_notes r Hr) as [f Hf].
  destruct (root_position_is_rank note_names all_notes root_note r f)
    as [Hd Hpos]; try done.
  unfold calc_chord_freqs, py_getitem in H. rewrite Hd in H.
  cbn [obind for_each] in H. rewrite Hpos in H.
  destruct (chord_freq all_notes r chord) as [cf|e] eqn:Hcf; [|done].
  cbn [obind app] in H. injection H as <-.
  by apply chord_freq_returns_inv.
Qed.

Lemma chord_intervals_bounds :
  Forall (Forall (fun k => (0 <= k < 22)%Z)) Chords.chord_intervals.
Proof. apply (bool_decide_unpack _). vm_compute. exact I. Qed.

Lemma note_names_distinct : NoDup Chords.note_names.
Proof. apply (bool_decide_unpack _). vm_compute. exact I. Qed.

(** The y ticks [all_notes[60:82]] that [main] puts on the C chord plots
    cover every tone of every chord of [chords('c')]: each interval [k]
    of a chord definition is between 0 and 21, and the frequency the
    chord has for it is tick number [k], the one [main] labels with that
    interval; there are as many ticks as labels. *)
Theorem c_chord_tones_on_ticks (d j : nat) (suff : string)
    (chord : list Z) (k : Z) :
  Chords.chord_name_suffixes !! d = Some suff ->
  Chords.chord_intervals !! d = Some chord -> chord !! j = Some k ->
  exists c_dict freqs x,
    chords (PyStr "c") = Returns (Some c_dict)
    /\ c_dict !! ("C" +:+ suff) = Some freqs
    /\ freqs !! j = Some x
    /\ (0 <= k < 22)%Z
    /\ MainSeries.c_chord_pitches !! Z.to_nat k = Some x
    /\ length MainSeries.c_chord_pitches
       = length MainSeries.interval_tick_labels.
Proof.
  intros Hsuff Hchord Hk.
  destruct chords_results as (v1 & v2 & H1 & _ & Hc & _).
  pose proof (calc_chord_freqs_pointwise _ _ _ _ _ _ H1) as Hpt.
  destruct (Forall2_lookup_l _ _ _ _ _ Hpt Hchord) as (freqs & Hfreqs & Hone).
  assert (Hbounds : Forall (fun k => (0 <= k < 22)%Z) chord).
  { pose proof chord_intervals_bounds as Hb. rewrite Forall_forall in Hb.
    apply Hb. by eapply list_elem_of_lookup_2. }
  assert (Hkb : (0 <= k < 22)%Z).
  { rewrite Forall_forall in Hbounds. apply Hbounds.
    by eapply list_elem_of_lookup_2. }
  assert (Hat : Forall2 (fun k x =>
            Chords.all_notes !! (60 + Z.to_nat k) = Some x) chord freqs).
  { apply (calc_chord_freqs_located_inv Chords.note_names Chords.chord_names
             Chords.all_notes "C4" 60).
    - exact note_names_distinct.
    - exact all_notes_ascending.
    - reflexivity.
    - unfold Chords.all_notes. rewrite length_calc_all_notes. simpl. lia.
    - eapply Forall_impl; [exact Hbounds|]. intros; simpl in *; lia.
    - exact Hone. }
  destruct (Forall2_lookup_l _ _ _ _ _ Hat Hk) as (x & Hx & Hxat).
  destruct c_chord_names_distinct as [Hndc _].
  exists (py_dict (zip Chords.c_chord_names v1)), freqs, x.
  split; [done|]. split; [|split; [done|]; split; [done|]; split].
  - apply (py_dict_zip_lookup _ _ d); [done | | done].
    unfold Chords.c_chord_names. rewrite combine_suffixes_first.
    apply (lookup_grid (fun pre suff => pre +:+ suff)
             Chords.c_chord_name_prefixes Chords.chord_name_suffixes
             0 d "C" suff eq_refl Hsuff).
  - apply py_slice_lookup. split; [|lia].
    change Main.all_notes with Chords.all_notes. exact Hxat.
  - unfold MainSeries.c_chord_pitches, py_slice.
    rewrite length_take, length_drop.
    unfold Main.all_notes. rewrite length_calc_all_notes. reflexivity.
Qed.

Lemma c_chord_tones_on_ticks_witness :
  exists c_dict freqs x,
    chords (PyStr "c") = Returns (Some c_dict)
    /\ c_dict !! ("C" +:+ "13") = Some freqs
    /\ freqs !! 6 = Some x
    /\ (0 <= 21 < 22)%Z
    /\ MainSeries.c_chord_pitches !! Z.to_nat 21 = Some x
    /\ length MainSeries.c_chord_pitches
       = length MainSeries.interval_tick_labels.
Proof.
  apply (c_chord_tones_on_ticks 14 6 "13" Chords.i14 21%Z); reflexivity.
Defined.

(** The twelve roots of [chords('all')] are not twelve consecutive
    semitones: the first nine are the entries 60 to 68 of the table, C4
    to Gs4, but the roots written A5, As5 and B5 are the entries 81 to 83,
    an octave above the three semitones that follow Gs4. *)
Theorem middle_c_chromatic_ranks (r : nat) (root_note : string) :
  Chords.middle_c_chromatic !! r = Some root_note ->
  exists f,
    Chords.notes_dict !! root_note = Some f
    /\ scan_pos Chords.all_notes f 0 = (if r <? 9 then 60 + r else 72 + r)
    /\ Chords.note_names !! (if r <? 9 then 60 + r else 72 + r)
       = Some root_note.
Proof.
  intros Hr.
  assert (Hlt : r < 12) by (by apply lookup_lt_Some in Hr).
  do 12 (destruct r as [|r];
    [injection Hr as <-; eexists; repeat split; vm_compute; reflexivity|]).
  lia.
Qed.

Lemma middle_c_chromatic_ranks_witness :
  exists f,
    Chords.notes_dict !! "A5" = Some f
    /\ scan_pos Chords.all_notes f 0 = 81
    /\ Chords.note_names !! 81 = Some "A5".
Proof.
  apply (middle_c_chromatic_ranks 9 "A5"). reflexivity.
Defined.
